(** * The in-memory LLM response cache of one-api

    A shallow embedding of package [model] of [llm_cache.go] (the key of a
    request, the store with its expiry and its eviction, the statistics
    and the configuration) and of package [middleware]: the two
    functions that decide whether a response is handed to the store,
    [shouldCache] and [handleCacheResponse], the test
    [isCacheableRequest], the capturing writer and the handler of
    [LLMCacheMiddleware].

    Package-level variables become one record [State] that every function
    takes and returns.  Pointers ([*LLMCacheItem], [*LLMCacheStats]) are
    addresses into two typed heaps carried by the state, so that a pointer
    handed to a caller and the pointer kept in [llmCache] name the same
    object.  Readings of [time.Now().Unix()] and the order in which a
    [for ... range] visits a Go map are arguments of the function that
    makes them.  A [go] statement is recorded, not run.  The reader/writer
    lock is not modelled: every function is one atomic step.  Calls of the
    logger are left out. *)

From Stdlib Require Import ZArith String Ascii List Lia.
From Stdlib.Strings Require Import Byte.
From stdpp Require Import gmap strings list fin_maps.

Local Open Scope string_scope.
Local Open Scope list_scope.
Local Open Scope Z_scope.

(** ** Machine integers *)

(** Go's [int64] (and [int] on the 64-bit targets the gateway runs on):
    sums and differences wrap around modulo [2^64]. *)
Definition wrap64 (z : Z) : Z := (z + 2 ^ 63) mod 2 ^ 64 - 2 ^ 63.

Definition add64 (a b : Z) : Z := wrap64 (a + b).

Definition sub64 (a b : Z) : Z := wrap64 (a - b).

Definition in_int64 (z : Z) : Prop := - 2 ^ 63 <= z < 2 ^ 63.

(** [len(s)] of a Go string or map, as an [int]. *)
Definition len_string (s : string) : Z := Z.of_nat (String.length s).

(** ** Pointers *)

(** An address is an index into the heap of its type; [new] appends the
    object, so the address it returns was never handed out before. *)
Abbreviation loc := nat (only parsing).

Definition new {A} (v : A) (h : list A) : loc * list A :=
  (List.length h, h ++ [v]).

(** ** What the source imports *)

(** Modelled from the spec: the types of package [relay/model], whose
    declarations are not among the files studied.  The specification
    speaks of a typed request record (model name, message list, sampling
    parameters, stream flag) and of a typed response record (choices with
    message content, usage accounting).  What the cache does not look
    into is a parameter: a [float64] is only stored and serialised, a
    [Message] is only asked for its [StringContent()], a [Usage] is only
    stored ([Usage_zero] is the zero value Go gives the type), the two
    penalties are only serialised, and [RequestRest] stands for all the
    fields of a request that the cache does not read. *)
Class RelayModel := {
  float64 : Type;
  Message : Type;
  StringContent : Message -> string;
  Usage : Type;
  Usage_zero : Usage;
  Penalty : Type;
  RequestRest : Type;
}.

Section Cache.
Context `{RM : RelayModel}.

(** Modelled from the spec: [relaymodel.GeneralOpenAIRequest], with the
    fields the source reads, typed as it uses them ([Temperature] and
    [TopP] are compared with [nil] and dereferenced, [MaxTokens] is
    compared with [0]), and [reqRest] for every other field. *)
Record GeneralOpenAIRequest := {
  reqModel : string;
  Messages : list Message;
  MaxTokens : Z;
  Temperature : option float64;
  TopP : option float64;
  FrequencyPenalty : Penalty;
  PresencePenalty : Penalty;
  Stream : bool;
  reqRest : RequestRest;
}.

(** Modelled from the spec: an element of [TextResponse.Choices], of
    which the source reads the message. *)
Record TextResponseChoice := {
  choiceMessage : Message;
}.

(** Modelled from the spec: [relaymodel.TextResponse], with the two
    fields the source reads. *)
Record TextResponse := {
  Choices : list TextResponseChoice;
  respUsage : Usage;
}.

(** A value of [map[string]interface{}] as [SetLLMCache] fills it. *)
Inductive ParamValue :=
  | ParamFloat (f : float64)
  | ParamInt (n : Z).

(** The fields [Response] and [Usage] are pointers in the source; no
    function of the two packages assigns through them, and they are kept
    as the values they point to. *)
Record LLMCacheItem := {
  RequestHash : string;
  Model : string;
  Response : TextResponse;
  itemUsage : Usage;
  CreatedAt : Z;
  ExpiresAt : Z;
  HitCount : Z;
  LastAccessed : Z;
  RequestParams : gmap string ParamValue;
}.

Record LLMCacheStats := {
  TotalItems : Z;
  Hits : Z;
  Misses : Z;
  Evictions : Z;
  TotalSize : Z;
  MaxSize : Z;
}.

Record LLMCacheConfig := {
  Enabled : bool;
  TTL : Z;
  cfgMaxSize : Z;
  MinResponseLength : Z;
  MaxResponseLength : Z;
  SimilarityThreshold : float64;
}.

(** The exported configuration variables of the package, and
    [common.RedisEnabled].  No function of the package assigns them. *)
Record Vars := {
  LLMCacheEnabled : bool;
  LLMCacheTTL : Z;
  LLMCacheMaxSize : Z;
  LLMCacheMinResponseLength : Z;
  LLMCacheMaxResponseLength : Z;
  LLMCacheSimilarityThreshold : float64;
  RedisEnabled : bool;
}.

(** A [go] statement of the package: what it was started to do. *)
Inductive Goroutine :=
  | GoCleanExpiredCache
  | GoRedisSetEx (key : string) (item : loc) (ttl : Z)
  | GoRedisDelPattern (pattern : string)
  | GoRedisDel (key : string).

Record State := {
  vars : Vars;
  llmCache : gmap string loc;
  llmCacheStats : loc;
  llmCacheConfig : LLMCacheConfig;
  items : list LLMCacheItem;
  statsObjs : list LLMCacheStats;
  spawned : list Goroutine;
}.

(** *** Zero values and field assignment *)

Definition zeroStats : LLMCacheStats :=
  {| TotalItems := 0; Hits := 0; Misses := 0; Evictions := 0;
     TotalSize := 0; MaxSize := 0 |}.

Definition zeroItem : LLMCacheItem :=
  {| RequestHash := ""; Model := "";
     Response := {| Choices := []; respUsage := Usage_zero |};
     itemUsage := Usage_zero;
     CreatedAt := 0; ExpiresAt := 0; HitCount := 0; LastAccessed := 0;
     RequestParams := ∅ |}.

#[global] Instance LLMCacheStats_inhabited : Inhabited LLMCacheStats :=
  populate zeroStats.

#[global] Instance LLMCacheItem_inhabited : Inhabited LLMCacheItem :=
  populate zeroItem.

Definition set_llmCache (m : gmap string loc) (st : State) : State :=
  {| vars := vars st; llmCache := m; llmCacheStats := llmCacheStats st;
     llmCacheConfig := llmCacheConfig st; items := items st;
     statsObjs := statsObjs st; spawned := spawned st |}.

Definition set_llmCacheStats (p : loc) (st : State) : State :=
  {| vars := vars st; llmCache := llmCache st; llmCacheStats := p;
     llmCacheConfig := llmCacheConfig st; items := items st;
     statsObjs := statsObjs st; spawned := spawned st |}.

Definition set_llmCacheConfig (c : LLMCacheConfig) (st : State) : State :=
  {| vars := vars st; llmCache := llmCache st;
     llmCacheStats := llmCacheStats st;
     llmCacheConfig := c; items := items st;
     statsObjs := statsObjs st; spawned := spawned st |}.

Definition set_items (h : list LLMCacheItem) (st : State) : State :=
  {| vars := vars st; llmCache := llmCache st;
     llmCacheStats := llmCacheStats st;
     llmCacheConfig := llmCacheConfig st; items := h;
     statsObjs := statsObjs st; spawned := spawned st |}.

Definition set_statsObjs (h : list LLMCacheStats) (st : State) : State :=
  {| vars := vars st; llmCache := llmCache st;
     llmCacheStats := llmCacheStats st;
     llmCacheConfig := llmCacheConfig st; items := items st;
     statsObjs := h; spawned := spawned st |}.

(** [go f()]. *)
Definition spawn (g : Goroutine) (st : State) : State :=
  {| vars := vars st; llmCache := llmCache st;
     llmCacheStats := llmCacheStats st;
     llmCacheConfig := llmCacheConfig st; items := items st;
     statsObjs := statsObjs st; spawned := spawned st ++ [g] |}.

(** [*p] for an item and for the statistics.  Every address the package
    keeps comes from [new] (see [heap_closed] below), so the default of
    the total lookup is never what is read. *)
Definition item_at (st : State) (p : loc) : LLMCacheItem := items st !!! p.

Definition stats_at (st : State) (p : loc) : LLMCacheStats := statsObjs st !!! p.

(** An assignment to fields of [*p] and of [*llmCacheStats]. *)
Definition update_item (p : loc) (f : LLMCacheItem -> LLMCacheItem)
    (st : State) : State :=
  set_items (alter f p (items st)) st.

Definition update_stats (f : LLMCacheStats -> LLMCacheStats)
    (st : State) : State :=
  set_statsObjs (alter f (llmCacheStats st) (statsObjs st)) st.

Definition with_TotalItems (f : Z -> Z) (s : LLMCacheStats) : LLMCacheStats :=
  {| TotalItems := f (TotalItems s); Hits := Hits s; Misses := Misses s;
     Evictions := Evictions s; TotalSize := TotalSize s; MaxSize := MaxSize s |}.

Definition with_Hits (f : Z -> Z) (s : LLMCacheStats) : LLMCacheStats :=
  {| TotalItems := TotalItems s; Hits := f (Hits s); Misses := Misses s;
     Evictions := Evictions s; TotalSize := TotalSize s; MaxSize := MaxSize s |}.

Definition with_Misses (f : Z -> Z) (s : LLMCacheStats) : LLMCacheStats :=
  {| TotalItems := TotalItems s; Hits := Hits s; Misses := f (Misses s);
     Evictions := Evictions s; TotalSize := TotalSize s; MaxSize := MaxSize s |}.

Definition with_Evictions (f : Z -> Z) (s : LLMCacheStats) : LLMCacheStats :=
  {| TotalItems := TotalItems s; Hits := Hits s; Misses := Misses s;
     Evictions := f (Evictions s); TotalSize := TotalSize s;
     MaxSize := MaxSize s |}.

Definition with_MaxSize (n : Z) (s : LLMCacheStats) : LLMCacheStats :=
  {| TotalItems := TotalItems s; Hits := Hits s; Misses := Misses s;
     Evictions := Evictions s; TotalSize := TotalSize s; MaxSize := n |}.

Definition incr (n : Z) : Z := add64 n 1.

Definition decr (n : Z) : Z := sub64 n 1.

(** [item.HitCount++; item.LastAccessed = now]. *)
Definition touch (now : Z) (i : LLMCacheItem) : LLMCacheItem :=
  {| RequestHash := RequestHash i; Model := Model i; Response := Response i;
     itemUsage := itemUsage i; CreatedAt := CreatedAt i;
     ExpiresAt := ExpiresAt i; HitCount := incr (HitCount i);
     LastAccessed := now; RequestParams := RequestParams i |}.

(** ** The store *)

(** [GetLLMCache(key)].  [now] is the clock reading of the expiry test and
    [now'] the later one stored in [LastAccessed].  The result is the item
    pointer when the second result of the Go function is [true], and
    [None] for [(nil, false)]. *)
Definition GetLLMCache (now now' : Z) (key : string) (st : State)
    : option loc * State :=
  if negb (LLMCacheEnabled (vars st)) then (None, st)
  else
    match llmCache st !! key with
    | None => (None, update_stats (with_Misses incr) st)
    | Some item =>
        if ExpiresAt (item_at st item) <? now then
          let st1 := set_llmCache (delete key (llmCache st)) st in
          let st2 := update_stats (with_TotalItems decr) st1 in
          (None, update_stats (with_Misses incr) st2)
        else
          let st1 := update_item item (touch now') st in
          (Some item, update_stats (with_Hits incr) st1)
    end.

(** The loop of [evictLRU]: [order] lists the entries of [llmCache] in the
    order the [range] visits them; the accumulator is
    [(oldestKey, oldestTime)]. *)
Definition scanOldest (st : State) (order : list (string * loc))
    (start : string * Z) : string * Z :=
  foldl (fun acc entry =>
           if LastAccessed (item_at st entry.2) <? acc.2
           then (entry.1, LastAccessed (item_at st entry.2))
           else acc)
        start order.

(** [evictLRU()], reading the clock as [now]. *)
Definition evictLRU (order : list (string * loc)) (now : Z) (st : State)
    : State :=
  let oldestKey := (scanOldest st order ("", now)).1 in
  if String.eqb oldestKey "" then st
  else
    update_stats (with_Evictions incr)
      (set_llmCache (delete oldestKey (llmCache st)) st).

(** The text [SetLLMCache] measures. *)
Definition responseText (response : TextResponse) : string :=
  match Choices response with
  | [] => ""
  | c :: _ => StringContent (choiceMessage c)
  end.

(** The [RequestParams] of a new item. *)
Definition requestParams (request : GeneralOpenAIRequest)
    : gmap string ParamValue :=
  let p0 : gmap string ParamValue := ∅ in
  let p1 := match Temperature request with
            | Some t => <["temperature" := ParamFloat t]> p0
            | None => p0
            end in
  let p2 := match TopP request with
            | Some t => <["top_p" := ParamFloat t]> p1
            | None => p1
            end in
  if MaxTokens request =? 0 then p2
  else <["max_tokens" := ParamInt (MaxTokens request)]> p2.

(** The item [SetLLMCache] builds at clock reading [now]. *)
Definition newItem (now : Z) (key : string) (response : TextResponse)
    (usage : Usage) (request : GeneralOpenAIRequest) (st : State)
    : LLMCacheItem :=
  {| RequestHash := key; Model := reqModel request;
     Response := response; itemUsage := usage;
     CreatedAt := now;
     ExpiresAt := add64 now (LLMCacheTTL (vars st));
     HitCount := 0; LastAccessed := now;
     RequestParams := requestParams request |}.

(** [SetLLMCache(key, response, usage, request)].  [now] is the clock
    reading of the function itself, [evictNow] and [order] are the clock
    reading and the visiting order of the [evictLRU] it may call. *)
Definition SetLLMCache (now evictNow : Z) (order : list (string * loc))
    (key : string) (response : TextResponse) (usage : Usage)
    (request : GeneralOpenAIRequest) (st : State) : State :=
  if negb (LLMCacheEnabled (vars st)) then st
  else
    let n := len_string (responseText response) in
    if (n <? LLMCacheMinResponseLength (vars st))
       || (LLMCacheMaxResponseLength (vars st) <? n) then st
    else
      let '(p, h) := new (newItem now key response usage request st)
                         (items st) in
      let st1 := set_items h st in
      let st2 :=
        if LLMCacheMaxSize (vars st1) <=? Z.of_nat (size (llmCache st1))
        then evictLRU order evictNow st1 else st1 in
      let st3 := set_llmCache (<[key := p]> (llmCache st2)) st2 in
      let st4 := update_stats (with_TotalItems incr) st3 in
      if RedisEnabled (vars st4)
      then spawn (GoRedisSetEx key p (LLMCacheTTL (vars st4))) st4
      else st4.

(** One tick of [cleanExpiredCache], at clock reading [now]. *)
Definition cleanExpiredCache_tick (order : list (string * loc)) (now : Z)
    (st : State) : State :=
  foldl (fun s entry =>
           if ExpiresAt (item_at s entry.2) <? now
           then update_stats (with_TotalItems decr)
                  (set_llmCache (delete entry.1 (llmCache s)) s)
           else s)
        st order.

(** [InitLLMCache()]. *)
Definition InitLLMCache (st : State) : State :=
  if negb (LLMCacheEnabled (vars st)) then st
  else spawn GoCleanExpiredCache st.

(** [GetLLMCacheStats()]: the result points to a new object. *)
Definition GetLLMCacheStats (st : State) : loc * State :=
  let stats := stats_at st (llmCacheStats st) in
  let stats := with_TotalItems (fun _ => Z.of_nat (size (llmCache st))) stats in
  let stats := with_MaxSize (LLMCacheMaxSize (vars st)) stats in
  let '(p, h) := new stats (statsObjs st) in
  (p, set_statsObjs h st).

(** [ClearLLMCache()]. *)
Definition ClearLLMCache (st : State) : State :=
  let st1 := set_llmCache ∅ st in
  let '(p, h) := new zeroStats (statsObjs st1) in
  let st2 := set_llmCacheStats p (set_statsObjs h st1) in
  if RedisEnabled (vars st2)
  then spawn (GoRedisDelPattern "llm_cache:*") st2
  else st2.

(** [GetLLMCacheConfig()]: the struct is returned by value. *)
Definition GetLLMCacheConfig (st : State) : LLMCacheConfig :=
  llmCacheConfig st.

(** [GetLLMCacheItems()]: a new slice, filled with the pointers the map
    holds, in the order the [range] visits them. *)
Definition GetLLMCacheItems (order : list (string * loc)) (st : State)
    : list loc :=
  foldl (fun items entry => items ++ [entry.2]) [] order.

(** [DeleteLLMCacheItem(key)]. *)
Definition DeleteLLMCacheItem (key : string) (st : State) : State :=
  match llmCache st !! key with
  | None => st
  | Some _ =>
      let st1 := set_llmCache (delete key (llmCache st)) st in
      let st2 := update_stats (with_TotalItems decr) st1 in
      if RedisEnabled (vars st2) then spawn (GoRedisDel key) st2 else st2
  end.

(** [UpdateLLMCacheConfig(config)]. *)
Definition UpdateLLMCacheConfig (config : LLMCacheConfig) (st : State)
    : State :=
  let st1 := set_llmCacheConfig config st in
  if negb (Enabled config) then
    let st2 := set_llmCache ∅ st1 in
    let '(p, h) := new zeroStats (statsObjs st2) in
    set_llmCacheStats p (set_statsObjs h st2)
  else st1.

(** *** The state the package starts in *)

(** The [var] blocks of the package; [threshold] is the constant [0.95]
    and [redis] the value of [common.RedisEnabled]. *)
Definition package_init (threshold : float64) (redis : bool) : State :=
  {| vars := {| LLMCacheEnabled := true; LLMCacheTTL := 3600;
                LLMCacheMaxSize := 10000;
                LLMCacheMinResponseLength := 10;
                LLMCacheMaxResponseLength := 10000;
                LLMCacheSimilarityThreshold := threshold;
                RedisEnabled := redis |};
     llmCache := ∅;
     llmCacheStats := 0%nat;
     llmCacheConfig := {| Enabled := false; TTL := 3600; cfgMaxSize := 10000;
                          MinResponseLength := 10;
                          MaxResponseLength := 10000;
                          SimilarityThreshold := threshold |};
     items := [];
     statsObjs := [zeroStats];
     spawned := [] |}.

(** Another package (or the start-up code) assigning the exported
    variables. *)
Definition set_vars (v : Vars) (st : State) : State :=
  {| vars := v; llmCache := llmCache st; llmCacheStats := llmCacheStats st;
     llmCacheConfig := llmCacheConfig st; items := items st;
     statsObjs := statsObjs st; spawned := spawned st |}.

(** *** What is observable of the store *)

(** No pointer of the package dangles. *)
Definition heap_closed (st : State) : Prop :=
  map_Forall (fun _ p => (p < List.length (items st))%nat) (llmCache st)
  /\ (llmCacheStats st < List.length (statsObjs st))%nat.

(** [order] is a way a [range] may visit the map. *)
Definition visits (order : list (string * loc)) (st : State) : Prop :=
  order ≡ₚ map_to_list (llmCache st).

(** The entry stored under [key], and the counters of the store. *)
Definition live_entry (st : State) (key : string) : option LLMCacheItem :=
  item_at st <$> llmCache st !! key.

Definition counters (st : State) : LLMCacheStats :=
  stats_at st (llmCacheStats st).

(** What the holder of a pointer can do with it: assign to the object. *)
Definition write_item (p : loc) (v : LLMCacheItem) (st : State) : State :=
  set_items (<[p := v]> (items st)) st.

Definition write_stats (p : loc) (v : LLMCacheStats) (st : State) : State :=
  set_statsObjs (<[p := v]> (statsObjs st)) st.

(** ** The key of a request *)

(** The map literal of [GenerateCacheKey], one field per key. *)
Record CacheData := {
  cd_model : string;
  cd_messages : list Message;
  cd_max_tokens : Z;
  cd_temperature : option float64;
  cd_top_p : option float64;
  cd_frequency_penalty : Penalty;
  cd_presence_penalty : Penalty;
  cd_stream : bool;
}.

(** The functions of Go's standard library that the two packages call:
    [json.Marshal] on the map of [GenerateCacheKey] ([None] when it
    returns an error), [sha256.Sum256] with its result of type [[32]byte],
    [json.Unmarshal] into a [TextResponse], and [strings.ToLower]. *)
Class GoLibrary := {
  json_Marshal : CacheData -> option (list byte);
  sha256_Sum256 : list byte -> vec byte 32;
  json_Unmarshal : list byte -> option TextResponse;
  strings_ToLower : string -> string;
}.

Context `{GL : GoLibrary}.

Definition hexDigit (n : N) : ascii :=
  match n with
  | 0%N => "0" | 1%N => "1" | 2%N => "2" | 3%N => "3" | 4%N => "4"
  | 5%N => "5" | 6%N => "6" | 7%N => "7" | 8%N => "8" | 9%N => "9"
  | 10%N => "a" | 11%N => "b" | 12%N => "c" | 13%N => "d" | 14%N => "e"
  | _ => "f"
  end%char.

(** The verb [%x] of [fmt.Sprintf] on a byte array: two digits a byte. *)
Fixpoint hex (bs : list byte) : string :=
  match bs with
  | [] => ""
  | b :: bs' =>
      String (hexDigit (Byte.to_N b / 16))
        (String (hexDigit (Byte.to_N b mod 16)) (hex bs'))
  end.

Definition cacheData (request : GeneralOpenAIRequest) : CacheData :=
  {| cd_model := reqModel request;
     cd_messages := Messages request;
     cd_max_tokens := MaxTokens request;
     cd_temperature := Temperature request;
     cd_top_p := TopP request;
     cd_frequency_penalty := FrequencyPenalty request;
     cd_presence_penalty := PresencePenalty request;
     cd_stream := Stream request |}.

(** [GenerateCacheKey(request)]. *)
Definition GenerateCacheKey (request : GeneralOpenAIRequest) : string :=
  match json_Marshal (cacheData request) with
  | None => ""
  | Some jsonData =>
      let hash := sha256_Sum256 jsonData in
      String.append "llm_cache:" (hex (vec_to_list hash))
  end.

(** A character of lowercase hexadecimal notation. *)
Definition lower_hex (c : ascii) : Prop :=
  In c (list_ascii_of_string "0123456789abcdef").

(** ** The middleware *)

(** [strings.Contains(s, substr)]. *)
Fixpoint strings_Contains (s substr : string) : bool :=
  String.prefix substr s
  || match s with
     | EmptyString => false
     | String _ s' => strings_Contains s' substr
     end.

(** [shouldCache(response)]; the two bounds are the variables of package
    [model]. *)
Definition shouldCache (response : TextResponse) (st : State) : bool :=
  match Choices response with
  | [] => false
  | c :: _ =>
      let responseText := StringContent (choiceMessage c) in
      if (len_string responseText <? LLMCacheMinResponseLength (vars st))
         || (LLMCacheMaxResponseLength (vars st) <? len_string responseText)
      then false
      else
        let content := strings_ToLower responseText in
        if strings_Contains content "error"
           || strings_Contains content "sorry"
           || strings_Contains content "cannot"
        then false
        else true
  end.

(** [handleCacheResponse(c, cacheKey, request, responseBody)], which the
    middleware calls when the captured status is 200.  The clock readings
    and the visiting order are those of the [SetLLMCache] it may call. *)
Definition handleCacheResponse (now evictNow : Z)
    (order : list (string * loc)) (cacheKey : string)
    (request : GeneralOpenAIRequest) (responseBody : list byte)
    (st : State) : State :=
  match json_Unmarshal responseBody with
  | None => st
  | Some response =>
      if negb (shouldCache response st) then st
      else SetLLMCache now evictNow order cacheKey response
             (respUsage response) request st
  end.

End Cache.

(** ** The handler of the middleware *)

Section Handler.
Context `{RM : RelayModel} `{GL : !GoLibrary}.

(** [strings.HasSuffix(s, suffix)]: the last [len(suffix)] bytes of [s]
    are [suffix]. *)
Definition strings_HasSuffix (s suffix : string) : bool :=
  (String.length suffix <=? String.length s)%nat
  && String.eqb
       (String.substring (String.length s - String.length suffix)
          (String.length suffix) s)
       suffix.

(** What [LLMCacheMiddleware] reads of the request: the method, the path
    of the URL, the header [Content-Type] (empty when absent) and what
    [io.ReadAll] gives for the body ([None] when it returns an error). *)
Record Request := {
  Method : string;
  URLPath : string;
  ContentType : string;
  RequestBody : option (list byte);
}.

(** [isCacheableRequest(c)]. *)
Definition isCacheableRequest (c : Request) : bool :=
  if negb (String.eqb (Method c) "POST") then false
  else if negb (strings_HasSuffix (URLPath c) "/chat/completions") then false
  else if negb (strings_Contains (ContentType c) "application/json") then false
  else true.

(** [json.Unmarshal] into a [GeneralOpenAIRequest]. *)
Class RequestDecoder := {
  json_Unmarshal_request : list byte -> option GeneralOpenAIRequest;
}.

Context `{RD : RequestDecoder}.

(** A call of a method of the [gin.ResponseWriter] of the context: one of
    the three methods [responseCaptureWriter] defines, or any other
    method, which the embedded interface promotes. *)
Inductive WriterCall :=
  | DoWrite (b : list byte)
  | DoWriteString (s : string)
  | DoWriteHeader (code : Z)
  | DoPromoted (method : string).

(** [responseCaptureWriter].  The embedded [ResponseWriter] is kept as
    the calls made on it, oldest first. *)
Record responseCaptureWriter := {
  ResponseWriter : list WriterCall;
  body : list byte;
  statusCode : Z;
}.

Definition Write (b : list byte) (w : responseCaptureWriter)
    : responseCaptureWriter :=
  {| ResponseWriter := ResponseWriter w ++ [DoWrite b];
     body := body w ++ b;
     statusCode := statusCode w |}.

Definition WriteString (s : string) (w : responseCaptureWriter)
    : responseCaptureWriter :=
  {| ResponseWriter := ResponseWriter w ++ [DoWriteString s];
     body := body w ++ list_byte_of_string s;
     statusCode := statusCode w |}.

Definition WriteHeader (code : Z) (w : responseCaptureWriter)
    : responseCaptureWriter :=
  {| ResponseWriter := ResponseWriter w ++ [DoWriteHeader code];
     body := body w;
     statusCode := code |}.

(** A call made on the capturing writer. *)
Definition call (w : responseCaptureWriter) (c : WriterCall)
    : responseCaptureWriter :=
  match c with
  | DoWrite b => Write b w
  | DoWriteString s => WriteString s w
  | DoWriteHeader code => WriteHeader code w
  | DoPromoted method =>
      {| ResponseWriter := ResponseWriter w ++ [DoPromoted method];
         body := body w;
         statusCode := statusCode w |}
  end.

(** The writer [LLMCacheMiddleware] installs: an empty buffer, and the
    zero value of [statusCode]. *)
Definition newCaptureWriter : responseCaptureWriter :=
  {| ResponseWriter := []; body := []; statusCode := 0 |}.

(** How the handler ends: [c.Next()] was run on the writer of the
    context; or the cached response was written with status 200 and the
    chain aborted; or [c.Next()] was run on the capturing writer. *)
Inductive Outcome :=
  | Passed (calls : list WriterCall)
  | Served (response : TextResponse)
  | Captured (w : responseCaptureWriter).

(** The clock readings and the visiting order of one run of the handler:
    those of its [GetLLMCache] and those of its [handleCacheResponse]. *)
Record Readings := {
  atLookup : Z;
  atTouch : Z;
  atInsert : Z;
  atEvict : Z;
  evictOrder : list (string * loc);
}.

(** What the remaining handlers find as [c.Request.Body] when they run:
    the stream as it arrived, which the middleware has not read; the
    stream after an [io.ReadAll] that returned an error, which the
    middleware does not put back; or the new buffer of the bytes read,
    which the middleware puts in its place. *)
Inductive BodyState :=
  | Unread
  | Consumed
  | Restored (b : list byte).

(** The handler [LLMCacheMiddleware()] returns.  [next] is what
    [c.Next()] does, given the body the remaining handlers find: the
    calls they make on the writer of the context, and the state they
    leave. *)
Definition LLMCacheMiddleware (r : Readings) (c : Request)
    (next : BodyState -> State -> list WriterCall * State) (st : State)
    : Outcome * State :=
  let pass := fun found => (Passed (next found st).1, (next found st).2) in
  if negb (isCacheableRequest c) then pass Unread
  else
    match RequestBody c with
    | None => pass Consumed
    | Some requestBody =>
        match json_Unmarshal_request requestBody with
        | None => pass (Restored requestBody)
        | Some request =>
            let cacheKey := GenerateCacheKey request in
            if String.eqb cacheKey "" then pass (Restored requestBody)
            else
              match GetLLMCache (atLookup r) (atTouch r) cacheKey st with
              | (Some cacheItem, st1) =>
                  (Served (Response (item_at st1 cacheItem)), st1)
              | (None, st1) =>
                  let responseWriter :=
                    foldl call newCaptureWriter
                      (next (Restored requestBody) st1).1 in
                  let st2 := (next (Restored requestBody) st1).2 in
                  if statusCode responseWriter =? 200
                  then (Captured responseWriter,
                        handleCacheResponse (atInsert r) (atEvict r)
                          (evictOrder r) cacheKey request
                          (body responseWriter) st2)
                  else (Captured responseWriter, st2)
              end
        end
    end.

(** The body the remaining handlers find when the handler runs them. *)
Definition bodyForNext (c : Request) : BodyState :=
  if negb (isCacheableRequest c) then Unread
  else
    match RequestBody c with
    | None => Consumed
    | Some requestBody => Restored requestBody
    end.

End Handler.

(** ** Sequences of calls *)

Section Calls.
Context `{RM : RelayModel}.

(** A call of a function of package [model] that changes the state, with
    the clock readings and the visiting order it makes; [CallSweep] is a
    tick of [cleanExpiredCache], and [CallAssign] another package
    assigning the exported variables. *)
Inductive Call :=
  | CallInit
  | CallGet (now now' : Z) (key : string)
  | CallSet (now evictNow : Z) (order : list (string * loc)) (key : string)
            (response : TextResponse) (usage : Usage)
            (request : GeneralOpenAIRequest)
  | CallSweep (order : list (string * loc)) (now : Z)
  | CallStats
  | CallClear
  | CallDelete (key : string)
  | CallUpdate (config : LLMCacheConfig)
  | CallAssign (v : Vars).

Definition run (c : Call) (st : State) : State :=
  match c with
  | CallInit => InitLLMCache st
  | CallGet now now' key => (GetLLMCache now now' key st).2
  | CallSet now evictNow order key response usage request =>
      SetLLMCache now evictNow order key response usage request st
  | CallSweep order now => cleanExpiredCache_tick order now st
  | CallStats => (GetLLMCacheStats st).2
  | CallClear => ClearLLMCache st
  | CallDelete key => DeleteLLMCacheItem key st
  | CallUpdate config => UpdateLLMCacheConfig config st
  | CallAssign v => set_vars v st
  end.

Definition run_all (calls : list Call) (st : State) : State :=
  foldl (fun s c => run c s) st calls.

(** The bindings a tick of the sweeper leaves, as deletions from the map
    [m] of the entries of [order] whose item in the heap [h] expires
    before [now]. *)
Definition swept (h : list LLMCacheItem) (now : Z) (m : gmap string loc)
    (order : list (string * loc)) : gmap string loc :=
  foldl (fun m' entry =>
           if ExpiresAt (h !!! entry.2) <? now then delete entry.1 m' else m')
        m order.

(** Each entry carries, as [RequestHash], the key it is stored under. *)
Definition keyed (st : State) : Prop :=
  map_Forall (fun key p => RequestHash (item_at st p) = key) (llmCache st).

End Calls.

(** ** Sample inputs *)

(** A gateway whose messages are plain text: a message is its content, a
    [float64] is written as its decimal literal, the usage is a token
    count, and the remaining fields of a request are kept as text. *)
Module Sample.

Definition text_model : RelayModel :=
  {| float64 := string;
     Message := string;
     StringContent := fun m => m;
     Usage := Z;
     Usage_zero := 0;
     Penalty := string;
     RequestRest := string |}.

#[local] Existing Instance text_model.

(** Lower case for the letters of ASCII, as [strings.ToLower] gives it on
    a string of ASCII characters. *)
Definition lower_ascii (c : ascii) : ascii :=
  let n := nat_of_ascii c in
  if (65 <=? n)%nat && (n <=? 90)%nat then ascii_of_nat (n + 32) else c.

Fixpoint lower (s : string) : string :=
  match s with
  | EmptyString => EmptyString
  | String c s' => String (lower_ascii c) (lower s')
  end.

(** Stand-ins for the encoder and the digest: the model name and the
    messages, separated by line feeds, and its first 32 bytes padded
    with zeros.  The stand-in for the decoder reads the body as the text
    of a single choice and counts its bytes as the usage. *)
Definition encode (d : CacheData) : list byte :=
  list_byte_of_string
    (foldl (fun acc m => String.append acc (String "010"%char m))
           (cd_model d) (cd_messages d)).

Fixpoint first_bytes (n : nat) (data : list byte) : vec byte n :=
  match n with
  | O => [#]
  | S n' =>
      match data with
      | [] => "000"%byte ::: first_bytes n' []
      | b :: data' => b ::: first_bytes n' data'
      end
  end.

Definition digest (data : list byte) : vec byte 32 := first_bytes 32 data.

Definition text_library : GoLibrary :=
  {| json_Marshal := fun d => Some (encode d);
     sha256_Sum256 := digest;
     json_Unmarshal := fun body =>
       Some {| Choices := [ {| choiceMessage := string_of_list_byte body |} ];
               respUsage := Z.of_nat (List.length body) |};
     strings_ToLower := lower |}.

#[local] Existing Instance text_library.

Definition question : GeneralOpenAIRequest :=
  {| reqModel := "gpt-4"; Messages := ["What is the capital of France?"];
     MaxTokens := 0; Temperature := None; TopP := None;
     FrequencyPenalty := "0"; PresencePenalty := "0"; Stream := false;
     reqRest := "" |}.

Definition answer : TextResponse :=
  {| Choices := [ {| choiceMessage := "The capital of France is Paris." |} ];
     respUsage := 21 |}.

Definition refusal : TextResponse :=
  {| Choices := [ {| choiceMessage := "Sorry, I can't help with that." |} ];
     respUsage := 30 |}.

Definition short_answer : TextResponse :=
  {| Choices := [ {| choiceMessage := "Paris." |} ]; respUsage := 9 |}.

(** The state the process starts in, without a mirror store. *)
Definition started : State := package_init "0.95" false.

(** The same with [LLMCacheMaxSize] set to [n] and with
    [LLMCacheEnabled] set to [on]. *)
Definition configured (on : bool) (n : Z) : State :=
  set_vars {| LLMCacheEnabled := on; LLMCacheTTL := 3600;
              LLMCacheMaxSize := n;
              LLMCacheMinResponseLength := 10;
              LLMCacheMaxResponseLength := 10000;
              LLMCacheSimilarityThreshold := "0.95";
              RedisEnabled := false |} started.

Definition config_off : LLMCacheConfig :=
  {| Enabled := false; TTL := 3600; cfgMaxSize := 10000;
     MinResponseLength := 10; MaxResponseLength := 10000;
     SimilarityThreshold := "0.95" |}.

(** An insertion as the running gateway makes it: one clock reading for
    the whole call, and the entries visited in the order of
    [map_to_list]. *)
Definition insert_at (now : Z) (key : string) (st : State) : State :=
  SetLLMCache now now (map_to_list (llmCache st)) key answer 21 question st.

End Sample.

(** A chat request as the gateway receives it, with a decoder that reads
    the body as the single message of a request to "gpt-4". *)
Module SampleWeb.
Import Sample.
#[local] Existing Instance text_model.
#[local] Existing Instance text_library.

Definition text_decoder : RequestDecoder :=
  {| json_Unmarshal_request := fun requestBody =>
       Some {| reqModel := "gpt-4";
               Messages := [string_of_list_byte requestBody];
               MaxTokens := 0; Temperature := None; TopP := None;
               FrequencyPenalty := "0"; PresencePenalty := "0";
               Stream := false; reqRest := "" |} |}.

#[local] Existing Instance text_decoder.

Definition chat : Request :=
  {| Method := "POST"; URLPath := "/v1/chat/completions";
     ContentType := "application/json; charset=utf-8";
     RequestBody :=
       Some (list_byte_of_string "What is the capital of France?") |}.

(** The remaining handlers answering with status 200 and the sample
    answer, without touching the cache. *)
Definition upstream (found : BodyState) (st : State)
    : list WriterCall * State :=
  ([DoWriteHeader 200;
    DoWrite (list_byte_of_string "The capital of France is Paris.")], st).

(** The same without a call of [WriteHeader]. *)
Definition upstream_bare (found : BodyState) (st : State)
    : list WriterCall * State :=
  ([DoWrite (list_byte_of_string "The capital of France is Paris.")], st).

Definition readings (now : Z) (st : State) : Readings :=
  {| atLookup := now; atTouch := now; atInsert := now; atEvict := now;
     evictOrder := map_to_list (llmCache st) |}.

End SampleWeb.

(** * Properties *)

(** A decidable statement about concrete values, settled by evaluating
    its decision procedure. *)
Ltac by_computation :=
  match goal with
  | |- ?P => apply (bool_decide_unpack P); vm_compute; exact I
  end.

(** ** Arithmetic of the counters and timestamps *)

Lemma wrap64_in_range (z : Z) : in_int64 z -> wrap64 z = z.
Proof.
  unfold in_int64, wrap64. intros Hz.
  rewrite Z.mod_small by lia. lia.
Qed.

Lemma wrap64_range (z : Z) : in_int64 (wrap64 z).
Proof.
  unfold in_int64, wrap64.
  pose proof (Z.mod_pos_bound (z + 2 ^ 63) (2 ^ 64)) as Hb. lia.
Qed.

(** An increment always changes a counter, also when it wraps. *)
Lemma incr_changes (n : Z) : incr n <> n.
Proof.
  unfold incr, add64, wrap64. intros Heq.
  pose proof (Z.mod_pos_bound (n + 1 + 2 ^ 63) (2 ^ 64)) as Hb.
  assert (Hn : 0 <= n + 2 ^ 63 < 2 ^ 64) by lia.
  destruct (Z.eq_dec (n + 2 ^ 63) (2 ^ 64 - 1)) as [Hmax | Hmax].
  - replace (n + 1 + 2 ^ 63) with (2 ^ 64) in Heq by lia.
    rewrite Z.mod_same in Heq by lia. lia.
  - rewrite Z.mod_small in Heq by lia. lia.
Qed.

Lemma incr_in_range (n : Z) : in_int64 n -> n < 2 ^ 63 - 1 -> incr n = n + 1.
Proof.
  unfold incr, add64, in_int64. intros Hn Hlt.
  apply wrap64_in_range. unfold in_int64. lia.
Qed.

Section StoreFacts.
Context `{RM : RelayModel}.

Implicit Types (st : State) (key : string) (p : loc).
Implicit Types (order : list (string * loc)).

(** ** What each assignment leaves alone *)

Lemma update_stats_llmCache f st : llmCache (update_stats f st) = llmCache st.
Proof. reflexivity. Qed.

Lemma update_stats_items f st : items (update_stats f st) = items st.
Proof. reflexivity. Qed.

Lemma update_stats_vars f st : vars (update_stats f st) = vars st.
Proof. reflexivity. Qed.

Lemma item_at_update_stats f st p :
  item_at (update_stats f st) p = item_at st p.
Proof. reflexivity. Qed.

(** An assignment through [llmCacheStats] is seen by [counters]. *)
Lemma counters_update_stats f st :
  (llmCacheStats st < List.length (statsObjs st))%nat ->
  counters (update_stats f st) = f (counters st).
Proof.
  intros Hp. unfold counters, stats_at, update_stats. simpl.
  by rewrite list_lookup_total_alter_eq.
Qed.

Lemma new_lookup {A} `{Inhabited A} (v : A) (h : list A) :
  (new v h).2 !!! (new v h).1 = v.
Proof. unfold new. simpl. by apply list_lookup_total_middle. Qed.

Lemma new_keeps {A} `{Inhabited A} (v : A) (h : list A) q :
  (q < List.length h)%nat -> (new v h).2 !!! q = h !!! q.
Proof. intros Hq. unfold new. simpl. by apply lookup_total_app_l. Qed.

(** ** The switch [LLMCacheEnabled] *)

Lemma GetLLMCache_disabled now now' key st :
  LLMCacheEnabled (vars st) = false ->
  GetLLMCache now now' key st = (None, st).
Proof. intros Hoff. unfold GetLLMCache. by rewrite Hoff. Qed.

Lemma SetLLMCache_disabled now evictNow order key response usage request st :
  LLMCacheEnabled (vars st) = false ->
  SetLLMCache now evictNow order key response usage request st = st.
Proof. intros Hoff. unfold SetLLMCache. by rewrite Hoff. Qed.

(** A lookup of a key the map does not hold counts one miss. *)
Lemma GetLLMCache_absent now now' key st :
  LLMCacheEnabled (vars st) = true ->
  llmCache st !! key = None ->
  GetLLMCache now now' key st = (None, update_stats (with_Misses incr) st).
Proof. intros Hon Hnone. unfold GetLLMCache. by rewrite Hon, Hnone. Qed.

(** ** The length test of [SetLLMCache] *)

Lemma SetLLMCache_rejected now evictNow order key response usage request st :
  len_string (responseText response) < LLMCacheMinResponseLength (vars st)
  \/ LLMCacheMaxResponseLength (vars st) < len_string (responseText response) ->
  SetLLMCache now evictNow order key response usage request st = st.
Proof.
  intros Hout. unfold SetLLMCache.
  destruct (LLMCacheEnabled (vars st)); [simpl | done].
  destruct Hout as [Hlt | Hgt].
  - apply Z.ltb_lt in Hlt. by rewrite Hlt.
  - apply Z.ltb_lt in Hgt. rewrite Hgt. by rewrite orb_true_r.
Qed.

End StoreFacts.

(** ** Claims on the switch and on the length test *)

Section SwitchClaims.
Context `{RM : RelayModel}.

(** The record that [UpdateLLMCacheConfig] assigns is read by neither
    function: with any other value in [llmCacheConfig] they return the
    same result and make the same changes. *)
Lemma GetLLMCache_ignores_llmCacheConfig config now now' key (st : State) :
  GetLLMCache now now' key (set_llmCacheConfig config st)
  = ((GetLLMCache now now' key st).1,
     set_llmCacheConfig config (GetLLMCache now now' key st).2).
Proof.
  unfold GetLLMCache. simpl.
  destruct (LLMCacheEnabled (vars st)); [simpl | done].
  destruct (llmCache st !! key) as [item |]; [| done].
  unfold item_at. simpl.
  by destruct (ExpiresAt (items st !!! item) <? now).
Qed.

Lemma SetLLMCache_ignores_llmCacheConfig config now evictNow order key
    response usage request (st : State) :
  SetLLMCache now evictNow order key response usage request
    (set_llmCacheConfig config st)
  = set_llmCacheConfig config
      (SetLLMCache now evictNow order key response usage request st).
Proof.
  unfold SetLLMCache. simpl.
  destruct (LLMCacheEnabled (vars st)); [simpl | done].
  destruct (_ || _); [done |].
  destruct (LLMCacheMaxSize (vars st) <=? Z.of_nat (size (llmCache st)));
    simpl.
  - unfold evictLRU. simpl.
    change (scanOldest (set_items _ (set_llmCacheConfig config st)) order
              ("", evictNow))
      with (scanOldest
              (set_items
                 (items st ++ [newItem now key response usage request st]) st)
              order ("", evictNow)).
    destruct (String.eqb _ _); simpl;
      by destruct (RedisEnabled (vars st)).
  - by destruct (RedisEnabled (vars st)).
Qed.

(** The switch the two functions test.  Whenever the package variable
    [LLMCacheEnabled] is false, a lookup reports not-found for every key
    and an insert is a no-op: both leave the whole state as it was. *)
Theorem disabled_store_is_inert (st : State) :
  LLMCacheEnabled (vars st) = false ->
  (forall now now' key, GetLLMCache now now' key st = (None, st))
  /\ (forall now evictNow order key response usage request,
        SetLLMCache now evictNow order key response usage request st = st).
Proof.
  intros Hoff. split.
  - intros. by apply GetLLMCache_disabled.
  - intros. by apply SetLLMCache_disabled.
Qed.

(** C10.  When the cache is disabled, a lookup returns not-found and the
    state it leaves is the state it found, so the miss counter keeps its
    value; on an enabled store every lookup that returns not-found adds
    one to the miss counter, which changes it. *)
Theorem disabled_lookup_counts_nothing (st : State) (key : string)
    (now now' : Z) :
  LLMCacheEnabled (vars st) = false ->
  GetLLMCache now now' key st = (None, st)
  /\ Misses (counters (GetLLMCache now now' key st).2) = Misses (counters st)
  /\ (forall st_on,
        LLMCacheEnabled (vars st_on) = true ->
        heap_closed st_on ->
        (GetLLMCache now now' key st_on).1 = None ->
        let after := counters (GetLLMCache now now' key st_on).2 in
        Misses after = incr (Misses (counters st_on))
        /\ Misses after <> Misses (counters st_on)).
Proof.
  intros Hoff. rewrite GetLLMCache_disabled by done.
  split; [done | split; [done |]].
  intros st_on Hon [_ Hstats] Hmiss after.
  assert (Hafter : Misses after = incr (Misses (counters st_on))).
  { subst after. revert Hmiss. unfold GetLLMCache. rewrite Hon. simpl.
    destruct (llmCache st_on !! key) as [item |].
    - destruct (ExpiresAt (item_at st_on item) <? now); [| done].
      intros _. simpl.
      rewrite counters_update_stats by (simpl; by rewrite length_alter).
      rewrite counters_update_stats by done. done.
    - intros _. simpl. by rewrite counters_update_stats. }
  split; [done |]. rewrite Hafter. apply incr_changes.
Qed.

(** C7.  An insertion of a response whose text is shorter than
    [LLMCacheMinResponseLength] or longer than [LLMCacheMaxResponseLength]
    returns normally and leaves the state as it was, so every later lookup
    answers as if the insertion had not been made. *)
Theorem out_of_range_response_not_stored (st : State) (now evictNow : Z)
    (order : list (string * loc)) (key : string) (response : TextResponse)
    (usage : Usage) (request : GeneralOpenAIRequest) :
  len_string (responseText response) < LLMCacheMinResponseLength (vars st)
  \/ LLMCacheMaxResponseLength (vars st) < len_string (responseText response) ->
  SetLLMCache now evictNow order key response usage request st = st
  /\ (forall t t' key',
        GetLLMCache t t' key'
          (SetLLMCache now evictNow order key response usage request st)
        = GetLLMCache t t' key' st).
Proof.
  intros Hout.
  pose proof (SetLLMCache_rejected now evictNow order key response usage
                request st Hout) as Hsame.
  split; [done |]. intros. by rewrite Hsame.
Qed.

End SwitchClaims.

Section SwitchChecks.
Import Sample.
#[local] Existing Instance text_model.

Lemma disabled_store_is_inert_witness :
  (forall now now' key,
      GetLLMCache now now' key (configured false 10000)
      = (None, configured false 10000))
  /\ (forall now evictNow order key response usage request,
        SetLLMCache now evictNow order key response usage request
          (configured false 10000)
        = configured false 10000).
Proof. apply (disabled_store_is_inert (configured false 10000)). reflexivity. Defined.

(** The package as it starts: with [LLMCacheEnabled] true, the state left
    by [UpdateLLMCacheConfig] with [Enabled = false] has its
    configuration's flag false, yet an insert stores the response and the
    next lookup finds it. *)
Lemma updated_flag_not_consulted :
  let st := UpdateLLMCacheConfig config_off started in
  let st' := insert_at 100 "k" st in
  Enabled (GetLLMCacheConfig st) = false
  /\ st' <> st
  /\ llmCache st' !! "k" = Some 0%nat
  /\ (GetLLMCache 101 101 "k" st').1 = Some 0%nat.
Proof.
  intros st st'. split; [reflexivity |]. split.
  - intros Heq. apply (f_equal (fun s => llmCache s !! "k")) in Heq.
    vm_compute in Heq. discriminate.
  - split; vm_compute; reflexivity.
Qed.

Lemma disabled_lookup_counts_nothing_witness :
  GetLLMCache 100 100 "k" (configured false 10000)
  = (None, configured false 10000)
  /\ Misses (counters (GetLLMCache 100 100 "k" (configured false 10000)).2)
     = Misses (counters (configured false 10000))
  /\ (forall st_on,
        LLMCacheEnabled (vars st_on) = true ->
        heap_closed st_on ->
        (GetLLMCache 100 100 "k" st_on).1 = None ->
        let after := counters (GetLLMCache 100 100 "k" st_on).2 in
        Misses after = incr (Misses (counters st_on))
        /\ Misses after <> Misses (counters st_on)).
Proof.
  apply (disabled_lookup_counts_nothing (configured false 10000) "k" 100 100).
  reflexivity.
Defined.

Lemma out_of_range_response_not_stored_witness :
  SetLLMCache 100 100 [] "k" short_answer 9 question started = started
  /\ (forall t t' key',
        GetLLMCache t t' key'
          (SetLLMCache 100 100 [] "k" short_answer 9 question started)
        = GetLLMCache t t' key' started).
Proof.
  apply (out_of_range_response_not_stored started 100 100 [] "k"
           short_answer 9 question).
  left. vm_compute. reflexivity.
Defined.

End SwitchChecks.

(** ** Eviction *)

Section EvictionFacts.
Context `{RM : RelayModel}.

Implicit Types (st : State) (key : string) (p : loc).
Implicit Types (order : list (string * loc)) (entry : string * loc).

Lemma scanOldest_cons st entry order start :
  scanOldest st (entry :: order) start
  = scanOldest st order
      (if LastAccessed (item_at st entry.2) <? start.2
       then (entry.1, LastAccessed (item_at st entry.2)) else start).
Proof. reflexivity. Qed.

(** The scan keeps its start when no visited entry is older. *)
Lemma scanOldest_unchanged st order start :
  (forall entry, entry ∈ order ->
                 start.2 <= LastAccessed (item_at st entry.2)) ->
  scanOldest st order start = start.
Proof.
  revert start. induction order as [| e order IH]; intros start Hall.
  - reflexivity.
  - rewrite scanOldest_cons.
    assert (He : start.2 <= LastAccessed (item_at st e.2)).
    { apply Hall. by left. }
    apply Z.ltb_ge in He. rewrite He.
    apply IH. intros entry Hin. apply Hall. by right.
Qed.

(** The scan ends on the entry that is older than the start and older
    than every other visited entry. *)
Lemma scanOldest_finds st order start entry :
  entry ∈ order ->
  LastAccessed (item_at st entry.2) < start.2 ->
  (forall other, other ∈ order -> other <> entry ->
     LastAccessed (item_at st entry.2) < LastAccessed (item_at st other.2)) ->
  scanOldest st order start = (entry.1, LastAccessed (item_at st entry.2)).
Proof.
  revert start. induction order as [| e order IH]; intros start Hin Hlt Hmin.
  - by apply elem_of_nil in Hin.
  - rewrite scanOldest_cons.
    destruct (decide (e = entry)) as [-> | Hne].
    + apply Z.ltb_lt in Hlt. rewrite Hlt.
      apply scanOldest_unchanged. intros other Hother. simpl.
      destruct (decide (other = entry)) as [-> | Hoe]; [lia |].
      assert (LastAccessed (item_at st entry.2)
              < LastAccessed (item_at st other.2)); [| lia].
      apply Hmin; [by right | done].
    + apply elem_of_cons in Hin as [Heq | Hin]; [congruence |].
      assert (Hlater : LastAccessed (item_at st entry.2)
                       < LastAccessed (item_at st e.2)).
      { apply Hmin; [by left | done]. }
      apply IH; [done | |].
      * destruct (LastAccessed (item_at st e.2) <? start.2); simpl; lia.
      * intros other Hother. apply Hmin. by right.
Qed.

(** [evictLRU] removes nothing and counts nothing when every entry was
    last accessed at the clock reading or later. *)
Lemma evictLRU_nothing_older st order now :
  (forall entry, entry ∈ order -> now <= LastAccessed (item_at st entry.2)) ->
  evictLRU order now st = st.
Proof.
  intros Hall. unfold evictLRU.
  rewrite scanOldest_unchanged by done. reflexivity.
Qed.

(** [evictLRU] removes the least recently accessed entry, and counts one
    eviction, when that entry was last accessed before the clock reading
    and its key is not the empty string. *)
Lemma evictLRU_least_recent st order now key p :
  (key, p) ∈ order ->
  key <> "" ->
  LastAccessed (item_at st p) < now ->
  (forall other, other ∈ order -> other <> (key, p) ->
     LastAccessed (item_at st p) < LastAccessed (item_at st other.2)) ->
  evictLRU order now st
  = update_stats (with_Evictions incr)
      (set_llmCache (delete key (llmCache st)) st).
Proof.
  intros Hin Hkey Hlt Hmin. unfold evictLRU.
  rewrite (scanOldest_finds st order ("", now) (key, p)) by done.
  simpl. destruct (String.eqb_spec key ""); [done | reflexivity].
Qed.

Lemma evictLRU_vars st order now : vars (evictLRU order now st) = vars st.
Proof. unfold evictLRU. by destruct (String.eqb _ _). Qed.

Lemma evictLRU_items st order now : items (evictLRU order now st) = items st.
Proof. unfold evictLRU. by destruct (String.eqb _ _). Qed.

Lemma evictLRU_llmCacheStats st order now :
  llmCacheStats (evictLRU order now st) = llmCacheStats st.
Proof. unfold evictLRU. by destruct (String.eqb _ _). Qed.

Lemma evictLRU_statsObjs_length st order now :
  List.length (statsObjs (evictLRU order now st))
  = List.length (statsObjs st).
Proof.
  unfold evictLRU. destruct (String.eqb _ _); [done |].
  simpl. by rewrite length_alter.
Qed.

(** Whatever [evictLRU] leaves in the map was there before. *)
Lemma evictLRU_lookup st order now key p :
  llmCache (evictLRU order now st) !! key = Some p ->
  llmCache st !! key = Some p.
Proof.
  unfold evictLRU. destruct (String.eqb _ _); [done |]. simpl.
  intros Hl. apply lookup_delete_Some in Hl. tauto.
Qed.

(** The reads of the scan do not see an object allocated after the
    entries it visits. *)
Lemma scanOldest_new_item st order start item :
  (forall entry, entry ∈ order -> (entry.2 < List.length (items st))%nat) ->
  scanOldest (set_items (items st ++ [item]) st) order start
  = scanOldest st order start.
Proof.
  revert start. induction order as [| e order IH]; intros start Hok.
  - reflexivity.
  - rewrite !scanOldest_cons.
    assert (He : item_at (set_items (items st ++ [item]) st) e.2
                 = item_at st e.2).
    { unfold item_at. simpl. apply lookup_total_app_l. apply Hok. by left. }
    rewrite He. apply IH. intros entry Hin. apply Hok. by right.
Qed.

(** The entries a [range] visits are entries of the map. *)
Lemma visits_lookup st order entry :
  visits order st -> entry ∈ order -> llmCache st !! entry.1 = Some entry.2.
Proof.
  unfold visits. intros Hperm Hin. rewrite Hperm in Hin.
  destruct entry as [k p]. by apply elem_of_map_to_list in Hin.
Qed.

Lemma visits_map_to_list st : visits (map_to_list (llmCache st)) st.
Proof. unfold visits. reflexivity. Qed.

Lemma lookup_visits st order key p :
  visits order st -> llmCache st !! key = Some p -> (key, p) ∈ order.
Proof.
  unfold visits. intros Hperm Hl. rewrite Hperm.
  by apply elem_of_map_to_list.
Qed.

End EvictionFacts.

(** ** Insertion *)

Section InsertFacts.
Context `{RM : RelayModel}.

Implicit Types (st : State) (key : string) (p : loc).
Implicit Types (order : list (string * loc)) (entry : string * loc).

(** What an insertion that passes the two tests does: allocate the item,
    evict when the map is at capacity, bind the key, count the item and
    hand the item to the mirror. *)
Lemma SetLLMCache_accepted now evictNow order key response usage request st :
  LLMCacheEnabled (vars st) = true ->
  LLMCacheMinResponseLength (vars st) <= len_string (responseText response) ->
  len_string (responseText response) <= LLMCacheMaxResponseLength (vars st) ->
  SetLLMCache now evictNow order key response usage request st
  = let p := List.length (items st) in
    let st1 :=
      set_items (items st ++ [newItem now key response usage request st]) st in
    let st2 :=
      if LLMCacheMaxSize (vars st) <=? Z.of_nat (size (llmCache st))
      then evictLRU order evictNow st1 else st1 in
    let st4 :=
      update_stats (with_TotalItems incr)
        (set_llmCache (<[key := p]> (llmCache st2)) st2) in
    if RedisEnabled (vars st)
    then spawn (GoRedisSetEx key p (LLMCacheTTL (vars st))) st4
    else st4.
Proof.
  intros Hon Hmin Hmax. unfold SetLLMCache. rewrite Hon. simpl.
  apply Z.ltb_ge in Hmin. apply Z.ltb_ge in Hmax. rewrite Hmin, Hmax. simpl.
  destruct (LLMCacheMaxSize (vars st) <=? Z.of_nat (size (llmCache st)));
    simpl; by rewrite ?evictLRU_vars.
Qed.

(** The key is bound to the new item, which is the last object of the
    heap; the variables are not assigned. *)
Lemma SetLLMCache_stores now evictNow order key response usage request st :
  LLMCacheEnabled (vars st) = true ->
  LLMCacheMinResponseLength (vars st) <= len_string (responseText response) ->
  len_string (responseText response) <= LLMCacheMaxResponseLength (vars st) ->
  let st' := SetLLMCache now evictNow order key response usage request st in
  llmCache st' !! key = Some (List.length (items st))
  /\ items st' = items st ++ [newItem now key response usage request st]
  /\ vars st' = vars st.
Proof.
  intros Hon Hmin Hmax. simpl. rewrite SetLLMCache_accepted by done. simpl.
  destruct (LLMCacheMaxSize (vars st) <=? Z.of_nat (size (llmCache st)));
    destruct (RedisEnabled (vars st)); simpl;
    rewrite ?evictLRU_items, ?evictLRU_vars, lookup_insert_eq; done.
Qed.

(** An insertion at capacity when no entry was last accessed before the
    clock reading of [evictLRU]: the key is bound and nothing is removed. *)
Lemma SetLLMCache_nothing_older now evictNow order key response usage
    request st :
  LLMCacheEnabled (vars st) = true ->
  LLMCacheMinResponseLength (vars st) <= len_string (responseText response) ->
  len_string (responseText response) <= LLMCacheMaxResponseLength (vars st) ->
  heap_closed st ->
  visits order st ->
  map_Forall (fun _ p => evictNow <= LastAccessed (item_at st p))
             (llmCache st) ->
  let st' := SetLLMCache now evictNow order key response usage request st in
  llmCache st' = <[key := List.length (items st)]> (llmCache st)
  /\ counters st' = with_TotalItems incr (counters st).
Proof.
  intros Hon Hmin Hmax [Hitems Hstats] Hvisit Hall. simpl.
  rewrite SetLLMCache_accepted by done. simpl.
  set (st1 := set_items _ st).
  assert (Hkeep : evictLRU order evictNow st1 = st1).
  { apply evictLRU_nothing_older. intros entry Hin.
    pose proof (visits_lookup st order entry Hvisit Hin) as Hl.
    unfold item_at, st1. simpl.
    rewrite lookup_total_app_l by (by apply (Hitems _ _ Hl)).
    by apply (Hall _ _ Hl). }
  rewrite Hkeep.
  assert (Hc : forall s, llmCacheStats s = llmCacheStats st ->
                         statsObjs s = statsObjs st ->
                         counters (update_stats (with_TotalItems incr) s)
                         = with_TotalItems incr (counters st)).
  { intros s Hp Hobjs. rewrite counters_update_stats by congruence.
    unfold counters, stats_at. by rewrite Hp, Hobjs. }
  destruct (LLMCacheMaxSize (vars st) <=? Z.of_nat (size (llmCache st)));
    destruct (RedisEnabled (vars st)); (split; [done | by apply Hc]).
Qed.

End InsertFacts.

Section CapacityClaims.
Context `{RM : RelayModel}.

(** C2 (the code departs from it).  The claim is that the store never
    holds more than [LLMCacheMaxSize] entries and that every insertion at
    capacity evicts exactly one entry.  What [SetLLMCache] does when no
    entry was last accessed before the second in which [evictLRU] reads
    the clock: an accepted insertion of a new key into a store at capacity
    removes nothing, leaves the eviction counter as it was, and leaves the
    store with more entries than [LLMCacheMaxSize]. *)
Theorem capacity_exceeded_within_one_second (st : State) (now evictNow : Z)
    (order : list (string * loc)) (key : string) (response : TextResponse)
    (usage : Usage) (request : GeneralOpenAIRequest) :
  LLMCacheEnabled (vars st) = true ->
  LLMCacheMinResponseLength (vars st) <= len_string (responseText response) ->
  len_string (responseText response) <= LLMCacheMaxResponseLength (vars st) ->
  heap_closed st ->
  visits order st ->
  LLMCacheMaxSize (vars st) <= Z.of_nat (size (llmCache st)) ->
  llmCache st !! key = None ->
  map_Forall (fun _ p => evictNow <= LastAccessed (item_at st p))
             (llmCache st) ->
  let st' := SetLLMCache now evictNow order key response usage request st in
  size (llmCache st') = S (size (llmCache st))
  /\ LLMCacheMaxSize (vars st') < Z.of_nat (size (llmCache st'))
  /\ Evictions (counters st') = Evictions (counters st).
Proof.
  intros Hon Hmin Hmax Hclosed Hvisit Hfull Hfresh Hall st'.
  destruct (SetLLMCache_nothing_older now evictNow order key response usage
              request st Hon Hmin Hmax Hclosed Hvisit Hall) as [Hmap Hcnt].
  destruct (SetLLMCache_stores now evictNow order key response usage
              request st Hon Hmin Hmax) as (_ & _ & Hvars).
  fold st' in Hmap, Hcnt, Hvars.
  assert (Hsize : size (llmCache st') = S (size (llmCache st))).
  { rewrite Hmap. by apply map_size_insert_None. }
  split; [done |]. split.
  - rewrite Hvars, Hsize. lia.
  - by rewrite Hcnt.
Qed.

(** C4 (the code departs from it).  The claim is that an insertion at
    capacity removes the entry with the smallest [LastAccessed] and counts
    the eviction.  What [SetLLMCache] does when that entry was last
    accessed in the second in which [evictLRU] reads the clock, or later:
    the entry stays bound to its key and the eviction counter keeps its
    value. *)
Theorem least_recent_entry_kept_within_one_second (st : State)
    (now evictNow : Z) (order : list (string * loc)) (key : string)
    (response : TextResponse) (usage : Usage)
    (request : GeneralOpenAIRequest) (oldest : string) (p : loc) :
  LLMCacheEnabled (vars st) = true ->
  LLMCacheMinResponseLength (vars st) <= len_string (responseText response) ->
  len_string (responseText response) <= LLMCacheMaxResponseLength (vars st) ->
  heap_closed st ->
  visits order st ->
  LLMCacheMaxSize (vars st) <= Z.of_nat (size (llmCache st)) ->
  llmCache st !! oldest = Some p ->
  map_Forall (fun k q => (k, q) <> (oldest, p) ->
                LastAccessed (item_at st p) < LastAccessed (item_at st q))
             (llmCache st) ->
  evictNow <= LastAccessed (item_at st p) ->
  key <> oldest ->
  let st' := SetLLMCache now evictNow order key response usage request st in
  llmCache st' !! oldest = Some p
  /\ item_at st' p = item_at st p
  /\ Evictions (counters st') = Evictions (counters st).
Proof.
  intros Hon Hmin Hmax Hclosed Hvisit Hfull Hold Hleast Hnow Hkey st'.
  assert (Hall : map_Forall
                   (fun _ q => evictNow <= LastAccessed (item_at st q))
                   (llmCache st)).
  { intros k q Hl. destruct (decide ((k, q) = (oldest, p))) as [Heq | Hne].
    - by inversion Heq; subst.
    - pose proof (Hleast k q Hl Hne). lia. }
  destruct (SetLLMCache_nothing_older now evictNow order key response usage
              request st Hon Hmin Hmax Hclosed Hvisit Hall) as [Hmap Hcnt].
  destruct (SetLLMCache_stores now evictNow order key response usage
              request st Hon Hmin Hmax) as (_ & Hitems & _).
  fold st' in Hmap, Hcnt, Hitems.
  split; [| split].
  - rewrite Hmap. by rewrite lookup_insert_ne.
  - unfold item_at. rewrite Hitems. apply lookup_total_app_l.
    destruct Hclosed as [Hp _]. by apply (Hp _ _ Hold).
  - by rewrite Hcnt.
Qed.

End CapacityClaims.

Section CapacityChecks.
Import Sample.
#[local] Existing Instance text_model.

(** Three requests answered within second 100 on a store limited to two
    entries: all three are stored and no eviction is counted. *)
Lemma capacity_exceeded_within_one_second_witness :
  let st := insert_at 100 "b" (insert_at 100 "a" (configured true 2)) in
  let st' := insert_at 100 "c" st in
  size (llmCache st') = S (size (llmCache st))
  /\ LLMCacheMaxSize (vars st') < Z.of_nat (size (llmCache st'))
  /\ Evictions (counters st') = Evictions (counters st).
Proof.
  intros st st'.
  apply (capacity_exceeded_within_one_second st 100 100
           (map_to_list (llmCache st)) "c" answer 21 question).
  - reflexivity.
  - vm_compute. discriminate.
  - vm_compute. discriminate.
  - split; [by_computation | vm_compute; lia].
  - apply visits_map_to_list.
  - vm_compute. discriminate.
  - vm_compute. reflexivity.
  - by_computation.
Defined.

(** A store limited to one entry, holding "a" since second 100, and a
    second request answered within that second: "a" is not evicted. *)
Lemma least_recent_entry_kept_within_one_second_witness :
  let st := insert_at 100 "a" (configured true 1) in
  let st' := insert_at 100 "b" st in
  llmCache st' !! "a" = Some 0%nat
  /\ item_at st' 0%nat = item_at st 0%nat
  /\ Evictions (counters st') = Evictions (counters st).
Proof.
  intros st st'.
  apply (least_recent_entry_kept_within_one_second st 100 100
           (map_to_list (llmCache st)) "b" answer 21 question "a" 0%nat).
  - reflexivity.
  - vm_compute. discriminate.
  - vm_compute. discriminate.
  - split; [by_computation | vm_compute; lia].
  - apply visits_map_to_list.
  - vm_compute. discriminate.
  - vm_compute. reflexivity.
  - by_computation.
  - vm_compute. discriminate.
  - discriminate.
Defined.

End CapacityChecks.

(** ** Expiry and the configuration update *)

Section ExpiryClaims.
Context `{RM : RelayModel}.

Implicit Types (st : State) (key : string) (p : loc).

(** A lookup of a bound key: the expiry test decides between the removal
    and the hit. *)
Lemma GetLLMCache_bound now now' key st p :
  LLMCacheEnabled (vars st) = true ->
  llmCache st !! key = Some p ->
  GetLLMCache now now' key st
  = if ExpiresAt (item_at st p) <? now
    then (None,
          update_stats (with_Misses incr)
            (update_stats (with_TotalItems decr)
               (set_llmCache (delete key (llmCache st)) st)))
    else (Some p,
          update_stats (with_Hits incr) (update_item p (touch now') st)).
Proof. intros Hon Hp. unfold GetLLMCache. by rewrite Hon, Hp. Qed.

(** C3 (as amended).  For an entry inserted at [now] while the
    time-to-live is [LLMCacheTTL] (so that [ExpiresAt = now + LLMCacheTTL],
    the sum being an [int64]), a lookup of its key at any time up to and
    including [now + LLMCacheTTL] returns the entry and keeps it, and a
    lookup at any time after [now + LLMCacheTTL] returns not-found and
    removes the key from the map in the same call. *)
Theorem entry_found_through_expiry_second (st : State) (now evictNow : Z)
    (order : list (string * loc)) (key : string) (response : TextResponse)
    (usage : Usage) (request : GeneralOpenAIRequest) :
  LLMCacheEnabled (vars st) = true ->
  LLMCacheMinResponseLength (vars st) <= len_string (responseText response) ->
  len_string (responseText response) <= LLMCacheMaxResponseLength (vars st) ->
  in_int64 (now + LLMCacheTTL (vars st)) ->
  let st1 := SetLLMCache now evictNow order key response usage request st in
  let p := List.length (items st) in
  let expiresAt := now + LLMCacheTTL (vars st) in
  live_entry st1 key = Some (newItem now key response usage request st)
  /\ CreatedAt (item_at st1 p) = now
  /\ ExpiresAt (item_at st1 p) = expiresAt
  /\ (forall t t', t <= expiresAt ->
        (GetLLMCache t t' key st1).1 = Some p
        /\ llmCache (GetLLMCache t t' key st1).2 !! key = Some p)
  /\ (forall t t', expiresAt < t ->
        (GetLLMCache t t' key st1).1 = None
        /\ llmCache (GetLLMCache t t' key st1).2 !! key = None).
Proof.
  intros Hon Hmin Hmax Hsum st1 p expiresAt.
  destruct (SetLLMCache_stores now evictNow order key response usage
              request st Hon Hmin Hmax) as (Hkey & Hitems & Hvars).
  fold st1 in Hkey, Hitems, Hvars. fold p in Hkey.
  assert (Hitem : item_at st1 p = newItem now key response usage request st).
  { unfold item_at. rewrite Hitems. by apply list_lookup_total_middle. }
  assert (Hexp : ExpiresAt (item_at st1 p) = expiresAt).
  { rewrite Hitem. simpl. unfold add64. by apply wrap64_in_range. }
  assert (Hon1 : LLMCacheEnabled (vars st1) = true) by (by rewrite Hvars).
  split; [| split; [| split; [| split]]].
  - unfold live_entry. rewrite Hkey. simpl. by rewrite Hitem.
  - by rewrite Hitem.
  - done.
  - intros t t' Ht.
    rewrite (GetLLMCache_bound t t' key st1 p) by done.
    rewrite Hexp. assert (Hle : (expiresAt <? t) = false) by lia.
    rewrite Hle. simpl. done.
  - intros t t' Ht.
    rewrite (GetLLMCache_bound t t' key st1 p) by done.
    rewrite Hexp. assert (Hlt : (expiresAt <? t) = true) by lia.
    rewrite Hlt. simpl. split; [done |]. apply lookup_delete_eq.
Qed.

(** C6.  An update whose configuration has [Enabled = false] leaves an
    empty map and counters that are all zero; right after it a lookup of
    any key returns not-found and the snapshot of the statistics reports
    zero items. *)
Theorem disabling_update_clears_store (st : State) (config : LLMCacheConfig) :
  Enabled config = false ->
  let st' := UpdateLLMCacheConfig config st in
  GetLLMCacheConfig st' = config
  /\ llmCache st' = ∅
  /\ counters st' = zeroStats
  /\ (forall now now' key, (GetLLMCache now now' key st').1 = None)
  /\ TotalItems (stats_at (GetLLMCacheStats st').2 (GetLLMCacheStats st').1)
     = 0.
Proof.
  intros Hoff st'.
  assert (Hmap : llmCache st' = ∅).
  { unfold st', UpdateLLMCacheConfig. by rewrite Hoff. }
  split; [| split; [| split; [| split]]].
  - unfold st', UpdateLLMCacheConfig. by rewrite Hoff.
  - done.
  - unfold st', UpdateLLMCacheConfig, counters, stats_at. rewrite Hoff. simpl.
    by apply list_lookup_total_middle.
  - intros now now' key. unfold GetLLMCache.
    destruct (LLMCacheEnabled (vars st')); [simpl | done].
    by rewrite Hmap, lookup_empty.
  - unfold GetLLMCacheStats, stats_at. simpl.
    rewrite list_lookup_total_middle by done. simpl.
    by rewrite Hmap, map_size_empty.
Qed.

End ExpiryClaims.

Section ExpiryChecks.
Import Sample.
#[local] Existing Instance text_model.

Lemma entry_found_through_expiry_second_witness :
  let st1 := insert_at 100 "k" started in
  live_entry st1 "k" = Some (newItem 100 "k" answer 21 question started)
  /\ CreatedAt (item_at st1 0%nat) = 100
  /\ ExpiresAt (item_at st1 0%nat) = 100 + 3600
  /\ (forall t t', t <= 100 + 3600 ->
        (GetLLMCache t t' "k" st1).1 = Some 0%nat
        /\ llmCache (GetLLMCache t t' "k" st1).2 !! "k" = Some 0%nat)
  /\ (forall t t', 100 + 3600 < t ->
        (GetLLMCache t t' "k" st1).1 = None
        /\ llmCache (GetLLMCache t t' "k" st1).2 !! "k" = None).
Proof.
  apply (entry_found_through_expiry_second started 100 100
           (map_to_list (llmCache started)) "k" answer 21 question).
  - reflexivity.
  - vm_compute. discriminate.
  - vm_compute. discriminate.
  - unfold in_int64. simpl. lia.
Defined.

(** C3 as stated fails at the boundary: the entry inserted at second 100
    with a time-to-live of 3600 seconds is still returned by a lookup at
    second 3700. *)
Lemma entry_found_at_expiry_time :
  let st1 := insert_at 100 "k" started in
  CreatedAt (item_at st1 0%nat) = 100
  /\ LLMCacheTTL (vars started) = 3600
  /\ ExpiresAt (item_at st1 0%nat) = 100 + 3600
  /\ 3700 >= 100 + 3600
  /\ (GetLLMCache 3700 3700 "k" st1).1 = Some 0%nat
  /\ llmCache (GetLLMCache 3700 3700 "k" st1).2 !! "k" = Some 0%nat.
Proof.
  intros st1. repeat split; try (vm_compute; reflexivity).
  vm_compute. discriminate.
Qed.

Lemma disabling_update_clears_store_witness :
  let st' := UpdateLLMCacheConfig config_off (insert_at 100 "k" started) in
  GetLLMCacheConfig st' = config_off
  /\ llmCache st' = ∅
  /\ counters st' = zeroStats
  /\ (forall now now' key, (GetLLMCache now now' key st').1 = None)
  /\ TotalItems (stats_at (GetLLMCacheStats st').2 (GetLLMCacheStats st').1)
     = 0.
Proof.
  apply (disabling_update_clears_store (insert_at 100 "k" started) config_off).
  reflexivity.
Defined.

End ExpiryChecks.

(** ** The switch of the configuration record *)

Section ConfigSwitchClaim.
Context `{RM : RelayModel}.

Lemma UpdateLLMCacheConfig_vars config (st : State) :
  vars (UpdateLLMCacheConfig config st) = vars st.
Proof. unfold UpdateLLMCacheConfig. by destruct (Enabled config). Qed.

(** C1 (the code departs from it).  The claim is that whenever the
    enabled flag of the current configuration is false, for example right
    after an update with [Enabled = false], a lookup reports not-found
    for every key and an insert is a no-op.  The comments of the source
    call such an update disabling the cache, but [GetLLMCache] and
    [SetLLMCache] test the package variable [LLMCacheEnabled], which the
    update does not assign.  What the code does while that variable is
    true: after an update with [Enabled = false] the flag of the
    configuration is false, yet an accepted insert changes the state and
    binds its key to the new item, and up to the expiry a lookup of the
    key returns that item. *)
Theorem config_switch_does_not_stop_the_cache (st : State)
    (config : LLMCacheConfig) (now evictNow : Z)
    (order : list (string * loc)) (key : string) (response : TextResponse)
    (usage : Usage) (request : GeneralOpenAIRequest) (t t' : Z) :
  Enabled config = false ->
  LLMCacheEnabled (vars st) = true ->
  LLMCacheMinResponseLength (vars st) <= len_string (responseText response) ->
  len_string (responseText response) <= LLMCacheMaxResponseLength (vars st) ->
  in_int64 (now + LLMCacheTTL (vars st)) ->
  t <= now + LLMCacheTTL (vars st) ->
  let off := UpdateLLMCacheConfig config st in
  let st' := SetLLMCache now evictNow order key response usage request off in
  Enabled (GetLLMCacheConfig off) = false
  /\ llmCache off = ∅
  /\ st' <> off
  /\ live_entry st' key
     = Some (newItem now key response usage request off)
  /\ (GetLLMCache t t' key st').1 = Some (List.length (items off)).
Proof.
  intros Hoff Hon Hmin Hmax Hsum Ht off st'.
  assert (Hvars : vars off = vars st) by apply UpdateLLMCacheConfig_vars.
  assert (Hempty : llmCache off = ∅).
  { unfold off, UpdateLLMCacheConfig. by rewrite Hoff. }
  assert (Hflag : Enabled (GetLLMCacheConfig off) = false).
  { unfold off, UpdateLLMCacheConfig. by rewrite Hoff. }
  rewrite <- Hvars in Hon, Hmin, Hmax, Hsum, Ht.
  destruct (SetLLMCache_stores now evictNow order key response usage
              request off Hon Hmin Hmax) as (Hkey & Hitems & Hvars').
  fold st' in Hkey, Hitems, Hvars'.
  set (p := List.length (items off)) in *.
  assert (Hitem : item_at st' p
                  = newItem now key response usage request off).
  { unfold item_at. rewrite Hitems. by apply list_lookup_total_middle. }
  split; [done |]. split; [done |]. split; [| split].
  - intros Heq. rewrite Heq, Hempty, lookup_empty in Hkey. discriminate.
  - unfold live_entry. rewrite Hkey. simpl. by rewrite Hitem.
  - rewrite (GetLLMCache_bound t t' key st' p); [| by rewrite Hvars' | done].
    rewrite Hitem. simpl. unfold add64. rewrite wrap64_in_range by done.
    assert (Hle : (now + LLMCacheTTL (vars off) <? t) = false) by lia.
    by rewrite Hle.
Qed.

End ConfigSwitchClaim.

Section ConfigSwitchCheck.
Import Sample.
#[local] Existing Instance text_model.

(** The package as it starts, an update with [Enabled = false], and the
    sample answer stored at second 100 and looked up at second 101. *)
Lemma config_switch_does_not_stop_the_cache_witness :
  let off := UpdateLLMCacheConfig config_off started in
  let st' := SetLLMCache 100 100 [] "k" answer 21 question off in
  Enabled (GetLLMCacheConfig off) = false
  /\ llmCache off = ∅
  /\ st' <> off
  /\ live_entry st' "k" = Some (newItem 100 "k" answer 21 question off)
  /\ (GetLLMCache 101 101 "k" st').1 = Some (List.length (items off)).
Proof.
  apply (config_switch_does_not_stop_the_cache started config_off 100 100 []
           "k" answer 21 question 101 101).
  - reflexivity.
  - reflexivity.
  - vm_compute. discriminate.
  - vm_compute. discriminate.
  - unfold in_int64. simpl. lia.
  - vm_compute. discriminate.
Defined.

End ConfigSwitchCheck.

(** ** The key of a request *)

Section KeyClaims.
Context `{RM : RelayModel} `{GL : !GoLibrary}.

Lemma hexDigit_lower (n : N) : lower_hex (hexDigit n).
Proof.
  unfold lower_hex.
  destruct n as [| q]; [simpl; tauto |].
  do 4 (try destruct q as [q | q |]); simpl; tauto.
Qed.

Lemma hex_lower (bs : list byte) :
  Forall lower_hex (list_ascii_of_string (hex bs)).
Proof.
  induction bs as [| b bs IH]; simpl.
  - constructor.
  - constructor; [apply hexDigit_lower |].
    constructor; [apply hexDigit_lower | done].
Qed.

Lemma hex_length (bs : list byte) :
  String.length (hex bs) = (2 * List.length bs)%nat.
Proof. induction bs as [| b bs IH]; simpl; [done | rewrite IH; lia]. Qed.

(** C5.  Two requests that agree on model, messages, max-tokens,
    temperature, top-p, frequency-penalty, presence-penalty and stream get
    the same key, whatever else they differ in.  A key that is not the
    empty string is ["llm_cache:"] followed by the 32 bytes of the digest
    of the serialised fields, written as 64 lowercase hexadecimal
    characters.  When the serialisation fails the key is the empty
    string. *)
Theorem GenerateCacheKey_fingerprint (r1 r2 : GeneralOpenAIRequest) :
  reqModel r1 = reqModel r2 ->
  Messages r1 = Messages r2 ->
  MaxTokens r1 = MaxTokens r2 ->
  Temperature r1 = Temperature r2 ->
  TopP r1 = TopP r2 ->
  FrequencyPenalty r1 = FrequencyPenalty r2 ->
  PresencePenalty r1 = PresencePenalty r2 ->
  Stream r1 = Stream r2 ->
  GenerateCacheKey r1 = GenerateCacheKey r2
  /\ (GenerateCacheKey r1 <> "" ->
      exists jsonData,
        json_Marshal (cacheData r1) = Some jsonData
        /\ GenerateCacheKey r1
           = String.append "llm_cache:"
               (hex (vec_to_list (sha256_Sum256 jsonData)))
        /\ String.length (hex (vec_to_list (sha256_Sum256 jsonData)))
           = 64%nat
        /\ Forall lower_hex
             (list_ascii_of_string
                (hex (vec_to_list (sha256_Sum256 jsonData)))))
  /\ (json_Marshal (cacheData r1) = None -> GenerateCacheKey r1 = "").
Proof.
  intros Hmodel Hmsgs Hmax Htemp Htop Hfreq Hpres Hstream.
  assert (Hdata : cacheData r1 = cacheData r2).
  { unfold cacheData. congruence. }
  split; [| split].
  - unfold GenerateCacheKey. by rewrite Hdata.
  - unfold GenerateCacheKey.
    destruct (json_Marshal (cacheData r1)) as [jsonData |]; [| done].
    intros _. exists jsonData. split; [done |]. split; [done |]. split.
    + rewrite hex_length, length_vec_to_list. reflexivity.
    + apply hex_lower.
  - unfold GenerateCacheKey. by intros ->.
Qed.

End KeyClaims.

Section KeyChecks.
Import Sample.
#[local] Existing Instance text_model.
#[local] Existing Instance text_library.

(** Two requests that differ only in a field the key does not cover. *)
Lemma GenerateCacheKey_fingerprint_witness :
  let r1 := question in
  let r2 :=
    {| reqModel := "gpt-4"; Messages := ["What is the capital of France?"];
       MaxTokens := 0; Temperature := None; TopP := None;
       FrequencyPenalty := "0"; PresencePenalty := "0"; Stream := false;
       reqRest := "user=alice" |} in
  GenerateCacheKey r1 = GenerateCacheKey r2
  /\ (GenerateCacheKey r1 <> "" ->
      exists jsonData,
        json_Marshal (cacheData r1) = Some jsonData
        /\ GenerateCacheKey r1
           = String.append "llm_cache:"
               (hex (vec_to_list (sha256_Sum256 jsonData)))
        /\ String.length (hex (vec_to_list (sha256_Sum256 jsonData)))
           = 64%nat
        /\ Forall lower_hex
             (list_ascii_of_string
                (hex (vec_to_list (sha256_Sum256 jsonData)))))
  /\ (json_Marshal (cacheData r1) = None -> GenerateCacheKey r1 = "").
Proof.
  intros r1 r2. apply (GenerateCacheKey_fingerprint r1 r2); reflexivity.
Defined.

End KeyChecks.

(** ** The middleware *)

Section MiddlewareClaims.
Context `{RM : RelayModel} `{GL : !GoLibrary}.

(** C9.  A response whose first choice's text, in lower case, contains
    "error", "sorry" or "cannot" is refused by [shouldCache] whatever its
    length, and [handleCacheResponse] returns without calling
    [SetLLMCache]: the state, and with it the map, is left as it was. *)
Theorem apologies_not_cached (st : State) (now evictNow : Z)
    (order : list (string * loc)) (cacheKey : string)
    (request : GeneralOpenAIRequest) (responseBody : list byte)
    (response : TextResponse) (c : TextResponseChoice)
    (rest : list TextResponseChoice) :
  json_Unmarshal responseBody = Some response ->
  Choices response = c :: rest ->
  strings_Contains (strings_ToLower (StringContent (choiceMessage c)))
                   "error" = true
  \/ strings_Contains (strings_ToLower (StringContent (choiceMessage c)))
                      "sorry" = true
  \/ strings_Contains (strings_ToLower (StringContent (choiceMessage c)))
                      "cannot" = true ->
  shouldCache response st = false
  /\ handleCacheResponse now evictNow order cacheKey request responseBody st
     = st.
Proof.
  intros Hbody Hchoices Hword.
  assert (Hno : shouldCache response st = false).
  { unfold shouldCache. rewrite Hchoices.
    destruct (_ || _); [done |].
    destruct Hword as [-> | [-> | ->]];
      by rewrite ?orb_true_r. }
  split; [done |].
  unfold handleCacheResponse. by rewrite Hbody, Hno.
Qed.

End MiddlewareClaims.

Section MiddlewareChecks.
Import Sample.
#[local] Existing Instance text_model.
#[local] Existing Instance text_library.

(** A refusal of thirty characters, inside the bounds 10 and 10000. *)
Lemma apologies_not_cached_witness :
  let body := list_byte_of_string "Sorry, I can't help with that." in
  LLMCacheMinResponseLength (vars started) <= len_string (responseText refusal)
  /\ len_string (responseText refusal) <= LLMCacheMaxResponseLength (vars started)
  /\ shouldCache refusal started = false
  /\ handleCacheResponse 100 100 [] "k" question body started = started.
Proof.
  intros body.
  split; [vm_compute; discriminate |]. split; [vm_compute; discriminate |].
  apply (apologies_not_cached started 100 100 [] "k" question body refusal
           (@Build_TextResponseChoice text_model
              "Sorry, I can't help with that.") []).
  - vm_compute. reflexivity.
  - reflexivity.
  - right. left. vm_compute. reflexivity.
Defined.

End MiddlewareChecks.

(** ** Pointers handed to callers *)

Section PointerClaims.
Context `{RM : RelayModel}.

Implicit Types (st : State) (key : string) (p : loc).
Implicit Types (order : list (string * loc)).

Lemma GetLLMCacheItems_pointers order st :
  GetLLMCacheItems order st = order.*2.
Proof.
  unfold GetLLMCacheItems.
  assert (Hgen : forall acc : list loc,
             foldl (fun items entry => items ++ [entry.2]) acc order
             = acc ++ order.*2).
  { induction order as [| e order IH]; intros acc; simpl.
    - by rewrite app_nil_r.
    - rewrite IH. by rewrite <- app_assoc. }
  apply (Hgen []).
Qed.

(** The slice holds exactly the pointers the map holds. *)
Lemma GetLLMCacheItems_live order st p :
  visits order st ->
  p ∈ GetLLMCacheItems order st <-> exists key, llmCache st !! key = Some p.
Proof.
  intros Hvisit. rewrite GetLLMCacheItems_pointers, list_elem_of_fmap. split.
  - intros ([k q] & -> & Hin). exists k.
    by apply (visits_lookup st order (k, q)).
  - intros [k Hl]. exists (k, p). split; [done |].
    by apply (lookup_visits st).
Qed.

(** C8 (as amended).  [GetLLMCacheStats] returns a pointer to a new copy
    of the counters, with the number of entries and the capacity filled
    in: an assignment through it changes no counter, no binding and no
    entry of the store.  [GetLLMCacheItems] returns a new slice, so the
    bindings and the counters cannot be changed through it; its elements
    are the pointers the map holds, so an assignment through one of them
    is an assignment to the live entry. *)
Theorem snapshot_copied_entries_shared (st : State)
    (order : list (string * loc)) :
  heap_closed st ->
  visits order st ->
  (let snap := (GetLLMCacheStats st).1 in
   let st1 := (GetLLMCacheStats st).2 in
   stats_at st1 snap
   = with_MaxSize (LLMCacheMaxSize (vars st))
       (with_TotalItems (fun _ => Z.of_nat (size (llmCache st)))
          (counters st))
   /\ forall v,
        let st2 := write_stats snap v st1 in
        counters st2 = counters st
        /\ llmCache st2 = llmCache st
        /\ forall key, live_entry st2 key = live_entry st key)
  /\ (forall p, p ∈ GetLLMCacheItems order st
                <-> exists key, llmCache st !! key = Some p)
  /\ (forall key p v,
        llmCache st !! key = Some p ->
        let st2 := write_item p v st in
        p ∈ GetLLMCacheItems order st
        /\ live_entry st2 key = Some v
        /\ llmCache st2 = llmCache st
        /\ counters st2 = counters st).
Proof.
  intros [Hitems Hstats] Hvisit. split; [| split].
  - simpl. split.
    + unfold stats_at. simpl. by apply list_lookup_total_middle.
    + intros v. split; [| split; [done | done]].
      unfold counters, stats_at. simpl.
      rewrite list_lookup_total_insert_ne by lia.
      by apply lookup_total_app_l.
  - intros p. by apply GetLLMCacheItems_live.
  - intros key p v Hl. simpl. split; [| split; [| split; [done | done]]].
    + apply GetLLMCacheItems_live; [done | by exists key].
    + unfold live_entry, item_at. simpl. rewrite Hl. simpl. f_equal.
      apply list_lookup_total_insert_eq. by apply (Hitems _ _ Hl).
Qed.

End PointerClaims.

Section PointerChecks.
Import Sample.
#[local] Existing Instance text_model.

Lemma snapshot_copied_entries_shared_witness :
  let st := insert_at 100 "k" started in
  let order := map_to_list (llmCache st) in
  (let snap := (GetLLMCacheStats st).1 in
   let st1 := (GetLLMCacheStats st).2 in
   stats_at st1 snap
   = with_MaxSize (LLMCacheMaxSize (vars st))
       (with_TotalItems (fun _ => Z.of_nat (size (llmCache st)))
          (counters st))
   /\ forall v,
        let st2 := write_stats snap v st1 in
        counters st2 = counters st
        /\ llmCache st2 = llmCache st
        /\ forall key, live_entry st2 key = live_entry st key)
  /\ (forall p, p ∈ GetLLMCacheItems order st
                <-> exists key, llmCache st !! key = Some p)
  /\ (forall key p v,
        llmCache st !! key = Some p ->
        let st2 := write_item p v st in
        p ∈ GetLLMCacheItems order st
        /\ live_entry st2 key = Some v
        /\ llmCache st2 = llmCache st
        /\ counters st2 = counters st).
Proof.
  intros st order.
  apply (snapshot_copied_entries_shared st order).
  - split; [by_computation | vm_compute; lia].
  - apply visits_map_to_list.
Defined.

(** C8 as stated fails for the list: the pointer listed for the entry
    "k" is the one the map holds, and an assignment through it (here the
    caller counts a hit and sets the access time) changes the live
    entry. *)
Lemma listed_item_aliases_live_entry :
  let st := insert_at 100 "k" started in
  let listed := GetLLMCacheItems (map_to_list (llmCache st)) st in
  let st' := write_item 0%nat (touch 999 (item_at st 0%nat)) st in
  listed = [0%nat]
  /\ llmCache st !! "k" = Some 0%nat
  /\ HitCount <$> live_entry st "k" = Some 0
  /\ HitCount <$> live_entry st' "k" = Some 1
  /\ live_entry st' "k" <> live_entry st "k".
Proof.
  intros st listed st'.
  split; [vm_compute; reflexivity |]. split; [vm_compute; reflexivity |].
  split; [vm_compute; reflexivity |]. split; [vm_compute; reflexivity |].
  intros Heq. apply (f_equal (fmap HitCount)) in Heq.
  vm_compute in Heq. discriminate.
Qed.

End PointerChecks.

(** ** No pointer of the package dangles *)

Section HeapClosed.
Context `{RM : RelayModel}.

Implicit Types (st : State) (key : string) (p : loc).
Implicit Types (order : list (string * loc)).

Lemma heap_closed_package_init threshold redis :
  heap_closed (package_init threshold redis).
Proof.
  split; simpl; [| lia]. intros key p Hl. by rewrite lookup_empty in Hl.
Qed.

Lemma heap_closed_update_stats f st :
  heap_closed st -> heap_closed (update_stats f st).
Proof.
  intros [Hitems Hstats]. split; simpl; [done |]. by rewrite length_alter.
Qed.

Lemma heap_closed_update_item p f st :
  heap_closed st -> heap_closed (update_item p f st).
Proof.
  intros [Hitems Hstats]. split; simpl; [| done].
  intros key q Hl. rewrite length_alter. by apply (Hitems key).
Qed.

Lemma heap_closed_delete key st :
  heap_closed st -> heap_closed (set_llmCache (delete key (llmCache st)) st).
Proof.
  intros [Hitems Hstats]. split; simpl; [| done].
  by apply map_Forall_delete.
Qed.

Lemma heap_closed_spawn g st : heap_closed st -> heap_closed (spawn g st).
Proof. intros [Hitems Hstats]. by split. Qed.

Lemma heap_closed_evictLRU order now st :
  heap_closed st -> heap_closed (evictLRU order now st).
Proof.
  intros Hclosed. unfold evictLRU. destruct (String.eqb _ _); [done |].
  by apply heap_closed_update_stats, heap_closed_delete.
Qed.

Lemma heap_closed_GetLLMCache now now' key st :
  heap_closed st -> heap_closed (GetLLMCache now now' key st).2.
Proof.
  intros Hclosed. unfold GetLLMCache.
  destruct (LLMCacheEnabled (vars st)); [simpl | done].
  destruct (llmCache st !! key) as [item |].
  - destruct (ExpiresAt (item_at st item) <? now); simpl.
    + by apply heap_closed_update_stats, heap_closed_update_stats,
        heap_closed_delete.
    + by apply heap_closed_update_stats, heap_closed_update_item.
  - by apply heap_closed_update_stats.
Qed.

(** Binding a key to a newly allocated item. *)
Lemma heap_closed_bind_new key item st st2 :
  heap_closed st2 ->
  items st2 = items st ++ [item] ->
  heap_closed (set_llmCache (<[key := List.length (items st)]> (llmCache st2))
                 st2).
Proof.
  intros [Hitems Hstats] Hheap. split; simpl; [| done].
  apply map_Forall_insert_2; [| done].
  rewrite Hheap, length_app. simpl. lia.
Qed.

Lemma heap_closed_SetLLMCache now evictNow order key response usage
    request st :
  heap_closed st ->
  heap_closed (SetLLMCache now evictNow order key response usage request st).
Proof.
  intros Hclosed.
  destruct (LLMCacheEnabled (vars st)) eqn:Hon;
    [| by rewrite SetLLMCache_disabled].
  destruct (Z.lt_ge_cases (len_string (responseText response))
              (LLMCacheMinResponseLength (vars st))) as [Hlt | Hmin];
    [rewrite SetLLMCache_rejected; [done | by left] |].
  destruct (Z.lt_ge_cases (LLMCacheMaxResponseLength (vars st))
              (len_string (responseText response))) as [Hgt | Hmax];
    [rewrite SetLLMCache_rejected; [done | by right] |].
  rewrite SetLLMCache_accepted by done. simpl.
  set (item := newItem now key response usage request st).
  assert (Hst1 : heap_closed (set_items (items st ++ [item]) st)).
  { destruct Hclosed as [Hitems Hstats]. split; simpl; [| done].
    intros k q Hl. simpl. rewrite length_app. simpl.
    pose proof (Hitems k q Hl) as Hq. simpl in Hq. lia. }
  assert (Hbound : forall st2,
             heap_closed st2 -> items st2 = items st ++ [item] ->
             heap_closed
               (update_stats (with_TotalItems incr)
                  (set_llmCache
                     (<[key := List.length (items st)]> (llmCache st2)) st2))).
  { intros st2 H2 Hheap.
    by apply heap_closed_update_stats, (heap_closed_bind_new key item). }
  destruct (LLMCacheMaxSize (vars st) <=? Z.of_nat (size (llmCache st)));
    destruct (RedisEnabled (vars st));
    try apply heap_closed_spawn; apply Hbound;
    try (by apply heap_closed_evictLRU); by rewrite ?evictLRU_items.
Qed.

(** Installing an empty map and new, zeroed counters. *)
Lemma heap_closed_reset st :
  heap_closed
    (set_llmCacheStats (List.length (statsObjs st))
       (set_statsObjs (statsObjs st ++ [zeroStats]) (set_llmCache ∅ st))).
Proof.
  split; simpl.
  - intros key p Hl. by rewrite lookup_empty in Hl.
  - rewrite length_app. simpl. lia.
Qed.

Lemma heap_closed_ClearLLMCache st : heap_closed (ClearLLMCache st).
Proof.
  unfold ClearLLMCache. simpl.
  destruct (RedisEnabled (vars st)); try apply heap_closed_spawn;
    apply heap_closed_reset.
Qed.

Lemma heap_closed_UpdateLLMCacheConfig config st :
  heap_closed st -> heap_closed (UpdateLLMCacheConfig config st).
Proof.
  intros Hclosed. unfold UpdateLLMCacheConfig.
  destruct (Enabled config); simpl.
  - destruct Hclosed as [Hitems Hstats]. by split.
  - apply (heap_closed_reset (set_llmCacheConfig config st)).
Qed.

Lemma heap_closed_DeleteLLMCacheItem key st :
  heap_closed st -> heap_closed (DeleteLLMCacheItem key st).
Proof.
  intros Hclosed. unfold DeleteLLMCacheItem.
  destruct (llmCache st !! key); [| done]. simpl.
  destruct (RedisEnabled (vars st)); try apply heap_closed_spawn;
    by apply heap_closed_update_stats, heap_closed_delete.
Qed.

Lemma heap_closed_GetLLMCacheStats st :
  heap_closed st -> heap_closed (GetLLMCacheStats st).2.
Proof.
  intros [Hitems Hstats]. split; simpl; [done |].
  rewrite length_app. simpl. lia.
Qed.

End HeapClosed.

(** ** The sweeper and the eviction on their ordinary path *)

Section OrdinaryPath.
Context `{RM : RelayModel}.

Implicit Types (st : State) (key : string) (p : loc).
Implicit Types (order : list (string * loc)).

(** A tick of the sweeper uses the comparison of the lookup: an entry
    whose [ExpiresAt] is the clock reading, or later, is kept. *)
Lemma cleanExpiredCache_tick_keeps order now st :
  (forall entry, entry ∈ order -> now <= ExpiresAt (item_at st entry.2)) ->
  cleanExpiredCache_tick order now st = st.
Proof.
  unfold cleanExpiredCache_tick.
  induction order as [| e order IH]; intros Hall; simpl.
  - reflexivity.
  - assert (He : now <= ExpiresAt (item_at st e.2)) by (apply Hall; by left).
    apply Z.ltb_ge in He. rewrite He.
    apply IH. intros entry Hin. apply Hall. by right.
Qed.

(** An insertion at capacity when the least recently accessed entry is
    older than the clock reading of [evictLRU] and its key is not empty:
    that entry is removed, one eviction is counted, and the new key is
    bound. *)
Lemma SetLLMCache_evicts_least_recent now evictNow order key response usage
    request st oldest p :
  LLMCacheEnabled (vars st) = true ->
  LLMCacheMinResponseLength (vars st) <= len_string (responseText response) ->
  len_string (responseText response) <= LLMCacheMaxResponseLength (vars st) ->
  heap_closed st ->
  visits order st ->
  LLMCacheMaxSize (vars st) <= Z.of_nat (size (llmCache st)) ->
  llmCache st !! oldest = Some p ->
  oldest <> "" ->
  LastAccessed (item_at st p) < evictNow ->
  map_Forall (fun k q => (k, q) <> (oldest, p) ->
                LastAccessed (item_at st p) < LastAccessed (item_at st q))
             (llmCache st) ->
  let st' := SetLLMCache now evictNow order key response usage request st in
  llmCache st'
  = <[key := List.length (items st)]> (delete oldest (llmCache st))
  /\ Evictions (counters st') = incr (Evictions (counters st)).
Proof.
  intros Hon Hmin Hmax [Hitems Hstats] Hvisit Hfull Hold Hkey Hlt Hleast.
  simpl. rewrite SetLLMCache_accepted by done. simpl.
  apply Z.leb_le in Hfull. rewrite Hfull.
  set (item := newItem now key response usage request st).
  set (st1 := set_items (items st ++ [item]) st).
  assert (Hread : forall k q, llmCache st !! k = Some q ->
                              item_at st1 q = item_at st q).
  { intros k q Hl. unfold item_at, st1. simpl.
    apply lookup_total_app_l. by apply (Hitems _ _ Hl). }
  assert (Hevict : evictLRU order evictNow st1
                   = update_stats (with_Evictions incr)
                       (set_llmCache (delete oldest (llmCache st1)) st1)).
  { apply (evictLRU_least_recent st1 order evictNow oldest p).
    - by apply (lookup_visits st).
    - done.
    - by rewrite (Hread oldest p).
    - intros [k q] Hin Hne.
      pose proof (visits_lookup st order (k, q) Hvisit Hin) as Hl.
      simpl in Hl. simpl.
      rewrite (Hread oldest p), (Hread k q) by done.
      by apply (Hleast k q). }
  rewrite Hevict.
  destruct (RedisEnabled (vars st)); (split; [done |]);
    unfold counters, stats_at; simpl;
    rewrite !list_lookup_total_alter_eq by (by rewrite ?length_alter);
    done.
Qed.

End OrdinaryPath.

(** ** The scenarios of the specification, in whole seconds *)

Section Scenarios.
Import Sample.
#[local] Existing Instance text_model.

(** Two entries at most; "a" stored at 0, "b" at 1, "a" read at 2, "c"
    stored at 3: "b" is evicted, "a" and "c" remain. *)
Example scenario_least_recently_used :
  let st0 := configured true 2 in
  let st1 := insert_at 0 "a" st0 in
  let st2 := insert_at 1 "b" st1 in
  let st3 := (GetLLMCache 2 2 "a" st2).2 in
  let st4 := insert_at 3 "c" st3 in
  dom (llmCache st4) = {[ "a"; "c" ]}
  /\ Evictions (counters st4) = 1.
Proof. split; [by_computation | vm_compute; reflexivity]. Qed.

(** A time-to-live of one second; "k1" stored at 0 and read at 0 is found
    and its hit count becomes 1; read at 2 it is not found and it is gone
    from the list of entries. *)
Example scenario_expiry :
  let st0 :=
    set_vars {| LLMCacheEnabled := true; LLMCacheTTL := 1;
                LLMCacheMaxSize := 10000;
                LLMCacheMinResponseLength := 10;
                LLMCacheMaxResponseLength := 10000;
                LLMCacheSimilarityThreshold := "0.95";
                RedisEnabled := false |} started in
  let st1 := insert_at 0 "k1" st0 in
  let hit := GetLLMCache 0 0 "k1" st1 in
  let miss := GetLLMCache 2 2 "k1" hit.2 in
  hit.1 = Some 0%nat
  /\ HitCount (item_at hit.2 0%nat) = 1
  /\ miss.1 = None
  /\ GetLLMCacheItems (map_to_list (llmCache miss.2)) miss.2 = [].
Proof. repeat split; vm_compute; reflexivity. Qed.

End Scenarios.

(** * Further properties of the store *)

(** ** Lookups *)

Section LookupFacts.
Context `{RM : RelayModel}.

Implicit Types (st : State) (key : string) (p : loc).

Lemma item_at_update_item st p q f :
  item_at (update_item p f st) q
  = if decide (p = q /\ (p < List.length (items st))%nat)
    then f (item_at st p) else item_at st q.
Proof. unfold item_at, update_item. simpl. apply list_lookup_total_alter. Qed.

(** What a lookup that finds its key does to the state. *)
Lemma GetLLMCache_hit t t' key st p :
  LLMCacheEnabled (vars st) = true ->
  llmCache st !! key = Some p ->
  t <= ExpiresAt (item_at st p) ->
  GetLLMCache t t' key st
  = (Some p, update_stats (with_Hits incr) (update_item p (touch t') st)).
Proof.
  intros Hon Hp Ht. rewrite (GetLLMCache_bound t t' key st p) by done.
  assert (Hle : (ExpiresAt (item_at st p) <? t) = false) by lia.
  by rewrite Hle.
Qed.

(** What a lookup that finds its key expired does to the state. *)
Lemma GetLLMCache_expired t t' key st p :
  LLMCacheEnabled (vars st) = true ->
  llmCache st !! key = Some p ->
  ExpiresAt (item_at st p) < t ->
  GetLLMCache t t' key st
  = (None,
     update_stats (with_Misses incr)
       (update_stats (with_TotalItems decr)
          (set_llmCache (delete key (llmCache st)) st))).
Proof.
  intros Hon Hp Ht. rewrite (GetLLMCache_bound t t' key st p) by done.
  assert (Hlt : (ExpiresAt (item_at st p) <? t) = true) by lia.
  by rewrite Hlt.
Qed.

(** X1.  The round trip of an insertion and a lookup: after an accepted
    insertion at [now], a lookup of the key at any time up to
    [now + LLMCacheTTL] returns a pointer to an item that holds the
    response, the usage, the model and the key that were inserted, with a
    hit count of one and the time of the lookup as its last access, and
    the hit counter of the store has grown by one. *)
Theorem insert_then_lookup_returns_response (st : State) (now evictNow : Z)
    (order : list (string * loc)) (key : string) (response : TextResponse)
    (usage : Usage) (request : GeneralOpenAIRequest) (t t' : Z) :
  LLMCacheEnabled (vars st) = true ->
  LLMCacheMinResponseLength (vars st) <= len_string (responseText response) ->
  len_string (responseText response) <= LLMCacheMaxResponseLength (vars st) ->
  in_int64 (now + LLMCacheTTL (vars st)) ->
  heap_closed st ->
  t <= now + LLMCacheTTL (vars st) ->
  let st1 := SetLLMCache now evictNow order key response usage request st in
  let found := GetLLMCache t t' key st1 in
  exists p,
    found.1 = Some p
    /\ Response (item_at found.2 p) = response
    /\ itemUsage (item_at found.2 p) = usage
    /\ Model (item_at found.2 p) = reqModel request
    /\ RequestHash (item_at found.2 p) = key
    /\ CreatedAt (item_at found.2 p) = now
    /\ ExpiresAt (item_at found.2 p) = now + LLMCacheTTL (vars st)
    /\ HitCount (item_at found.2 p) = 1
    /\ LastAccessed (item_at found.2 p) = t'
    /\ Hits (counters found.2) = incr (Hits (counters st1)).
Proof.
  intros Hon Hmin Hmax Hsum Hclosed Ht st1 found.
  destruct (SetLLMCache_stores now evictNow order key response usage
              request st Hon Hmin Hmax) as (Hkey & Hitems & Hvars).
  fold st1 in Hkey, Hitems, Hvars.
  set (p := List.length (items st)) in *.
  assert (Hitem : item_at st1 p = newItem now key response usage request st).
  { unfold item_at. rewrite Hitems. by apply list_lookup_total_middle. }
  assert (Hexp : ExpiresAt (item_at st1 p) = now + LLMCacheTTL (vars st)).
  { rewrite Hitem. simpl. unfold add64. by apply wrap64_in_range. }
  assert (Hclosed1 : heap_closed st1) by (by apply heap_closed_SetLLMCache).
  assert (Hfound : found
            = (Some p,
               update_stats (with_Hits incr) (update_item p (touch t') st1))).
  { apply GetLLMCache_hit; [by rewrite Hvars | done | by rewrite Hexp]. }
  assert (Hp : (p < List.length (items st1))%nat).
  { rewrite Hitems, length_app. simpl. lia. }
  assert (Hread : item_at found.2 p = touch t' (item_at st1 p)).
  { rewrite Hfound. simpl. rewrite item_at_update_stats, item_at_update_item.
    by rewrite decide_True. }
  exists p. rewrite Hread, Hitem. simpl.
  split; [by rewrite Hfound |].
  do 8 (split; [first [done | by apply wrap64_in_range] |]).
  rewrite Hfound. simpl. destruct Hclosed1 as [_ Hstats].
  rewrite counters_update_stats by done. reflexivity.
Qed.

(** X2.  A lookup that finds its key returns the pointer the map holds and
    changes nothing but the hit count and the last access of that item and
    the hit counter of the store: the map, the expiry of the item (no
    sliding expiration), every other item, the other counters and the
    goroutines are as before. *)
Theorem hit_updates_only_its_entry (st : State) (key : string) (p : loc)
    (t t' : Z) :
  LLMCacheEnabled (vars st) = true ->
  heap_closed st ->
  llmCache st !! key = Some p ->
  t <= ExpiresAt (item_at st p) ->
  let found := GetLLMCache t t' key st in
  found.1 = Some p
  /\ llmCache found.2 = llmCache st
  /\ item_at found.2 p = touch t' (item_at st p)
  /\ ExpiresAt (item_at found.2 p) = ExpiresAt (item_at st p)
  /\ (forall q, q <> p -> item_at found.2 q = item_at st q)
  /\ counters found.2 = with_Hits incr (counters st)
  /\ spawned found.2 = spawned st.
Proof.
  intros Hon [Hitems Hstats] Hp Ht found.
  assert (Hfound : found
            = (Some p,
               update_stats (with_Hits incr) (update_item p (touch t') st))).
  { by apply GetLLMCache_hit. }
  assert (Hread : item_at found.2 p = touch t' (item_at st p)).
  { rewrite Hfound. simpl. rewrite item_at_update_stats, item_at_update_item.
    rewrite decide_True; [done |]. split; [done |]. by apply (Hitems _ _ Hp). }
  rewrite Hfound in *. simpl in *.
  split; [done |]. split; [done |]. split; [done |].
  split; [by rewrite Hread |]. split; [| split; [| done]].
  - intros q Hq. rewrite item_at_update_stats, item_at_update_item.
    rewrite decide_False; [done |]. intros [Heq _]. congruence.
  - by rewrite counters_update_stats.
Qed.

(** X3.  A lookup that finds its key expired returns not-found, removes
    that key and no other, decrements the item counter and counts a miss;
    the items are not written and no goroutine is started, so the mirror
    is not told of the removal. *)
Theorem expired_lookup_removes_only_its_key (st : State) (key : string)
    (p : loc) (t t' : Z) :
  LLMCacheEnabled (vars st) = true ->
  heap_closed st ->
  llmCache st !! key = Some p ->
  ExpiresAt (item_at st p) < t ->
  let gone := GetLLMCache t t' key st in
  gone.1 = None
  /\ llmCache gone.2 = delete key (llmCache st)
  /\ (forall key', key' <> key -> llmCache gone.2 !! key' = llmCache st !! key')
  /\ items gone.2 = items st
  /\ counters gone.2 = with_Misses incr (with_TotalItems decr (counters st))
  /\ spawned gone.2 = spawned st.
Proof.
  intros Hon [Hitems Hstats] Hp Ht gone.
  unfold gone. rewrite (GetLLMCache_expired t t' key st p) by done. simpl.
  split; [done |]. split; [done |]. split; [| split; [done | split; [| done]]].
  - intros key' Hne. by apply lookup_delete_ne.
  - rewrite counters_update_stats by (simpl; by rewrite length_alter).
    by rewrite counters_update_stats.
Qed.

End LookupFacts.

Section LookupChecks.
Import Sample.
#[local] Existing Instance text_model.

Lemma insert_then_lookup_returns_response_witness :
  let st1 := insert_at 100 "k" started in
  let found := GetLLMCache 200 200 "k" st1 in
  exists p,
    found.1 = Some p
    /\ Response (item_at found.2 p) = answer
    /\ itemUsage (item_at found.2 p) = 21
    /\ Model (item_at found.2 p) = reqModel question
    /\ RequestHash (item_at found.2 p) = "k"
    /\ CreatedAt (item_at found.2 p) = 100
    /\ ExpiresAt (item_at found.2 p) = 100 + LLMCacheTTL (vars started)
    /\ HitCount (item_at found.2 p) = 1
    /\ LastAccessed (item_at found.2 p) = 200
    /\ Hits (counters found.2) = incr (Hits (counters st1)).
Proof.
  apply (insert_then_lookup_returns_response started 100 100
           (map_to_list (llmCache started)) "k" answer 21 question 200 200).
  - reflexivity.
  - vm_compute. discriminate.
  - vm_compute. discriminate.
  - unfold in_int64. simpl. lia.
  - split; [by_computation | vm_compute; lia].
  - vm_compute. discriminate.
Defined.

Lemma hit_updates_only_its_entry_witness :
  let st := insert_at 100 "k" started in
  let found := GetLLMCache 200 201 "k" st in
  found.1 = Some 0%nat
  /\ llmCache found.2 = llmCache st
  /\ item_at found.2 0%nat = touch 201 (item_at st 0%nat)
  /\ ExpiresAt (item_at found.2 0%nat) = ExpiresAt (item_at st 0%nat)
  /\ (forall q, q <> 0%nat -> item_at found.2 q = item_at st q)
  /\ counters found.2 = with_Hits incr (counters st)
  /\ spawned found.2 = spawned st.
Proof.
  apply (hit_updates_only_its_entry (insert_at 100 "k" started) "k" 0%nat
           200 201).
  - reflexivity.
  - split; [by_computation | vm_compute; lia].
  - vm_compute. reflexivity.
  - vm_compute. discriminate.
Defined.

Lemma expired_lookup_removes_only_its_key_witness :
  let st := insert_at 100 "k" started in
  let gone := GetLLMCache 3701 3701 "k" st in
  gone.1 = None
  /\ llmCache gone.2 = delete "k" (llmCache st)
  /\ (forall key', key' <> "k" -> llmCache gone.2 !! key' = llmCache st !! key')
  /\ items gone.2 = items st
  /\ counters gone.2 = with_Misses incr (with_TotalItems decr (counters st))
  /\ spawned gone.2 = spawned st.
Proof.
  apply (expired_lookup_removes_only_its_key (insert_at 100 "k" started) "k"
           0%nat 3701 3701).
  - reflexivity.
  - split; [by_computation | vm_compute; lia].
  - vm_compute. reflexivity.
  - vm_compute. reflexivity.
Defined.

End LookupChecks.

(** ** The sweeper *)

Section SweeperFacts.
Context `{RM : RelayModel}.

Implicit Types (st : State) (key : string) (p : loc).
Implicit Types (order : list (string * loc)) (m : gmap string loc).

Lemma cleanExpiredCache_tick_parts order now st :
  let st' := cleanExpiredCache_tick order now st in
  llmCache st' = swept (items st) now (llmCache st) order
  /\ items st' = items st
  /\ vars st' = vars st
  /\ llmCacheStats st' = llmCacheStats st
  /\ llmCacheConfig st' = llmCacheConfig st
  /\ spawned st' = spawned st
  /\ List.length (statsObjs st') = List.length (statsObjs st).
Proof.
  unfold cleanExpiredCache_tick, swept, item_at. revert st.
  induction order as [| e order IH]; intros st; simpl; [done |].
  destruct (ExpiresAt (items st !!! e.2) <? now); [| apply IH].
  specialize (IH (update_stats (with_TotalItems decr)
                    (set_llmCache (delete e.1 (llmCache st)) st))).
  simpl in IH. by rewrite length_alter in IH.
Qed.

Lemma swept_absent h now m order key :
  m !! key = None -> swept h now m order !! key = None.
Proof.
  unfold swept. revert m. induction order as [| e order IH]; intros m Hm;
    simpl; [done |].
  apply IH. destruct (ExpiresAt (h !!! e.2) <? now); [| done].
  rewrite lookup_delete_None. by right.
Qed.

Lemma swept_kept h now m order key :
  (forall entry, entry ∈ order -> entry.1 = key ->
                 now <= ExpiresAt (h !!! entry.2)) ->
  swept h now m order !! key = m !! key.
Proof.
  unfold swept. revert m. induction order as [| e order IH]; intros m Hall;
    simpl; [done |].
  rewrite IH by (intros entry Hin; apply Hall; by right).
  destruct (ExpiresAt (h !!! e.2) <? now) eqn:Hexp; [| done].
  apply lookup_delete_ne. intros Heq.
  assert (now <= ExpiresAt (h !!! e.2)) by (apply Hall; [by left | done]).
  lia.
Qed.

Lemma swept_removed h now m order key p :
  (key, p) ∈ order ->
  ExpiresAt (h !!! p) < now ->
  swept h now m order !! key = None.
Proof.
  unfold swept. revert m. induction order as [| e order IH]; intros m Hin Hexp.
  - by apply elem_of_nil in Hin.
  - simpl. apply elem_of_cons in Hin as [<- | Hin]; [| by apply IH].
    simpl. assert (Hlt : (ExpiresAt (h !!! p) <? now) = true) by lia.
    rewrite Hlt. apply (swept_absent h now _ order). apply lookup_delete_eq.
Qed.

(** A tick leaves exactly the bindings whose item does not expire before
    the clock reading. *)
Lemma cleanExpiredCache_tick_llmCache order now st :
  visits order st ->
  llmCache (cleanExpiredCache_tick order now st)
  = filter (fun kp => now <= ExpiresAt (item_at st kp.2)) (llmCache st).
Proof.
  intros Hvisit.
  destruct (cleanExpiredCache_tick_parts order now st) as (-> & _).
  apply map_eq. intros key.
  destruct (llmCache st !! key) as [p |] eqn:Hl.
  - destruct (Z.lt_ge_cases (ExpiresAt (item_at st p)) now) as [Hexp | Hlive].
    + rewrite (swept_removed _ _ _ _ key p);
        [| by apply (lookup_visits st) | done].
      symmetry. apply map_lookup_filter_None. right. intros q Hq. simpl.
      rewrite Hl in Hq. inversion Hq; subst. lia.
    + rewrite swept_kept.
      * rewrite Hl. symmetry. by apply map_lookup_filter_Some.
      * intros [k q] Hin Hk. simpl in *. subst k.
        pose proof (visits_lookup st order (key, q) Hvisit Hin) as Hq.
        simpl in Hq. rewrite Hl in Hq. inversion Hq; subst. done.
  - rewrite swept_absent by done. symmetry.
    apply map_lookup_filter_None. by left.
Qed.

(** The item counter goes down once for each visited entry found
    expired. *)
Lemma cleanExpiredCache_tick_counters order now st :
  (llmCacheStats st < List.length (statsObjs st))%nat ->
  counters (cleanExpiredCache_tick order now st)
  = with_TotalItems
      (Nat.iter
         (List.length
            (filter (fun entry => ExpiresAt (item_at st entry.2) < now) order))
         decr)
      (counters st).
Proof.
  unfold cleanExpiredCache_tick. revert st.
  induction order as [| e order IH]; intros st Hstats; simpl.
  - by destruct (counters st).
  - rewrite filter_cons.
    destruct (Z.lt_ge_cases (ExpiresAt (item_at st e.2)) now) as [Hexp | Hlive].
    + assert (Hlt : (ExpiresAt (item_at st e.2) <? now) = true) by lia.
      rewrite Hlt, decide_True by done.
      set (s' := update_stats (with_TotalItems decr)
                   (set_llmCache (delete e.1 (llmCache st)) st)).
      assert (Hs' : (llmCacheStats s' < List.length (statsObjs s'))%nat).
      { unfold s'. simpl. by rewrite length_alter. }
      pose proof (IH s' Hs') as IH'.
      change (filter (fun entry => ExpiresAt (item_at s' entry.2) < now) order)
        with (filter (fun entry => ExpiresAt (item_at st entry.2) < now) order)
        in IH'.
      rewrite IH'. unfold s'. rewrite counters_update_stats by done.
      change (counters (set_llmCache (delete e.1 (llmCache st)) st))
        with (counters st).
      unfold with_TotalItems. simpl. f_equal.
      by rewrite <- Nat.iter_succ_r.
    + assert (Hge : (ExpiresAt (item_at st e.2) <? now) = false) by lia.
      rewrite Hge, decide_False by lia. by apply IH.
Qed.

(** X4.  A tick of the sweeper at clock reading [now] leaves exactly the
    entries whose [ExpiresAt] is [now] or later, in whatever order it
    visits the map; it decrements the item counter once for each entry it
    removes, writes no item and starts no goroutine. *)
Theorem sweep_removes_exactly_the_expired (st : State)
    (order : list (string * loc)) (now : Z) :
  heap_closed st ->
  visits order st ->
  let st' := cleanExpiredCache_tick order now st in
  llmCache st'
  = filter (fun kp => now <= ExpiresAt (item_at st kp.2)) (llmCache st)
  /\ counters st'
     = with_TotalItems
         (Nat.iter
            (List.length
               (filter (fun entry => ExpiresAt (item_at st entry.2) < now)
                  order))
            decr)
         (counters st)
  /\ items st' = items st
  /\ spawned st' = spawned st.
Proof.
  intros [_ Hstats] Hvisit st'.
  destruct (cleanExpiredCache_tick_parts order now st)
    as (_ & Hitems & _ & _ & _ & Hspawned & _).
  split; [by apply cleanExpiredCache_tick_llmCache |].
  split; [by apply cleanExpiredCache_tick_counters | done].
Qed.

(** X5.  After a tick at clock reading [now] the store holds no entry
    that a lookup at [now] or earlier would find expired: every key still
    bound is found, and a second tick at the same clock reading changes
    nothing. *)
Theorem swept_store_has_no_expired_entry (st : State)
    (order order' : list (string * loc)) (now : Z) :
  LLMCacheEnabled (vars st) = true ->
  visits order st ->
  let st' := cleanExpiredCache_tick order now st in
  visits order' st' ->
  (forall key p t t',
      llmCache st' !! key = Some p -> t <= now ->
      (GetLLMCache t t' key st').1 = Some p)
  /\ cleanExpiredCache_tick order' now st' = st'.
Proof.
  intros Hon Hvisit st' Hvisit'.
  destruct (cleanExpiredCache_tick_parts order now st)
    as (_ & Hitems & Hvars & _).
  fold st' in Hitems, Hvars.
  assert (Hlive : forall key p, llmCache st' !! key = Some p ->
                                now <= ExpiresAt (item_at st' p)).
  { intros key p Hl. unfold st' in Hl.
    rewrite cleanExpiredCache_tick_llmCache in Hl by done.
    apply map_lookup_filter_Some in Hl as [_ Hge]. simpl in Hge.
    unfold item_at. by rewrite Hitems. }
  split.
  - intros key p t t' Hl Ht.
    rewrite (GetLLMCache_hit t t' key st' p); [done | by rewrite Hvars | done |].
    pose proof (Hlive key p Hl). lia.
  - apply cleanExpiredCache_tick_keeps. intros [k q] Hin.
    apply (Hlive k). by apply (visits_lookup st' order' (k, q)).
Qed.

End SweeperFacts.

Section SweeperChecks.
Import Sample.
#[local] Existing Instance text_model.

(** "old" stored at second 100 and "new" at second 5000, each for 3600
    seconds, and a tick at second 4000. *)
Lemma sweep_removes_exactly_the_expired_witness :
  let st := insert_at 5000 "new" (insert_at 100 "old" started) in
  let order := map_to_list (llmCache st) in
  let st' := cleanExpiredCache_tick order 4000 st in
  llmCache st'
  = filter (fun kp => 4000 <= ExpiresAt (item_at st kp.2)) (llmCache st)
  /\ counters st'
     = with_TotalItems
         (Nat.iter
            (List.length
               (filter (fun entry => ExpiresAt (item_at st entry.2) < 4000)
                  order))
            decr)
         (counters st)
  /\ items st' = items st
  /\ spawned st' = spawned st.
Proof.
  intros st order.
  apply (sweep_removes_exactly_the_expired st order 4000).
  - split; [by_computation | vm_compute; lia].
  - apply visits_map_to_list.
Defined.

Lemma swept_store_has_no_expired_entry_witness :
  let st := insert_at 5000 "new" (insert_at 100 "old" started) in
  let st' := cleanExpiredCache_tick (map_to_list (llmCache st)) 4000 st in
  (forall key p t t',
      llmCache st' !! key = Some p -> t <= 4000 ->
      (GetLLMCache t t' key st').1 = Some p)
  /\ cleanExpiredCache_tick (map_to_list (llmCache st')) 4000 st' = st'.
Proof.
  intros st.
  apply (swept_store_has_no_expired_entry st (map_to_list (llmCache st))
           (map_to_list
              (llmCache
                 (cleanExpiredCache_tick (map_to_list (llmCache st)) 4000 st)))
           4000).
  - reflexivity.
  - apply visits_map_to_list.
  - apply visits_map_to_list.
Defined.

End SweeperChecks.

(** ** Eviction when the clock has advanced *)

Section EvictionMore.
Context `{RM : RelayModel}.

Implicit Types (st : State) (key : string) (p : loc).
Implicit Types (order : list (string * loc)) (entry : string * loc).

(** Where the scan ends: on its start when no visited entry is older, and
    otherwise on a visited entry that is older than the start and at
    least as old as every visited entry. *)
Lemma scanOldest_result st order start :
  (scanOldest st order start = start
   /\ forall entry, entry ∈ order ->
                    start.2 <= LastAccessed (item_at st entry.2))
  \/ (exists victim,
        victim ∈ order
        /\ scanOldest st order start
           = (victim.1, LastAccessed (item_at st victim.2))
        /\ LastAccessed (item_at st victim.2) < start.2
        /\ forall entry, entry ∈ order ->
             LastAccessed (item_at st victim.2)
             <= LastAccessed (item_at st entry.2)).
Proof.
  revert start. induction order as [| e order IH]; intros start.
  - left. split; [done |]. intros entry Hin. by apply elem_of_nil in Hin.
  - rewrite scanOldest_cons.
    destruct (Z.lt_ge_cases (LastAccessed (item_at st e.2)) start.2)
      as [Hlt | Hge].
    + assert (Hb : (LastAccessed (item_at st e.2) <? start.2) = true) by lia.
      rewrite Hb.
      destruct (IH (e.1, LastAccessed (item_at st e.2)))
        as [[Heq Hall] | (v & Hin & Heq & Hv & Hall)]; right.
      * exists e. split; [by left |]. split; [done |]. split; [done |].
        intros entry [-> | Hin]%elem_of_cons; [lia | by apply Hall].
      * exists v. split; [by right |]. split; [done |]. simpl in Hv.
        split; [lia |].
        intros entry [-> | Hin']%elem_of_cons; [lia | by apply Hall].
    + assert (Hb : (LastAccessed (item_at st e.2) <? start.2) = false) by lia.
      rewrite Hb.
      destruct (IH start) as [[Heq Hall] | (v & Hin & Heq & Hv & Hall)].
      * left. split; [done |].
        intros entry [-> | Hin]%elem_of_cons; [lia | by apply Hall].
      * right. exists v. split; [by right |]. split; [done |].
        split; [done |].
        intros entry [-> | Hin']%elem_of_cons; [lia | by apply Hall].
Qed.

(** An accepted insertion into a store below its capacity. *)
Lemma SetLLMCache_below_capacity now evictNow order key response usage
    request st :
  LLMCacheEnabled (vars st) = true ->
  LLMCacheMinResponseLength (vars st) <= len_string (responseText response) ->
  len_string (responseText response) <= LLMCacheMaxResponseLength (vars st) ->
  heap_closed st ->
  Z.of_nat (size (llmCache st)) < LLMCacheMaxSize (vars st) ->
  let st' := SetLLMCache now evictNow order key response usage request st in
  llmCache st' = <[key := List.length (items st)]> (llmCache st)
  /\ counters st' = with_TotalItems incr (counters st).
Proof.
  intros Hon Hmin Hmax [Hitems Hstats] Hroom. simpl.
  rewrite SetLLMCache_accepted by done. simpl.
  assert (Hb : (LLMCacheMaxSize (vars st) <=? Z.of_nat (size (llmCache st)))
               = false) by lia.
  rewrite Hb.
  destruct (RedisEnabled (vars st)); (split; [done |]);
    unfold counters, stats_at; simpl;
    by rewrite list_lookup_total_alter_eq.
Qed.

(** An accepted insertion into a store at capacity, when some entry was
    last accessed before the clock reading of [evictLRU] and no key is
    the empty string. *)
Lemma SetLLMCache_evicts now evictNow order key response usage request st
    older p :
  LLMCacheEnabled (vars st) = true ->
  LLMCacheMinResponseLength (vars st) <= len_string (responseText response) ->
  len_string (responseText response) <= LLMCacheMaxResponseLength (vars st) ->
  heap_closed st ->
  visits order st ->
  LLMCacheMaxSize (vars st) <= Z.of_nat (size (llmCache st)) ->
  llmCache st !! older = Some p ->
  LastAccessed (item_at st p) < evictNow ->
  map_Forall (fun k _ => k <> "") (llmCache st) ->
  let st' := SetLLMCache now evictNow order key response usage request st in
  exists victim q,
    llmCache st !! victim = Some q
    /\ map_Forall (fun _ q' => LastAccessed (item_at st q)
                               <= LastAccessed (item_at st q'))
                  (llmCache st)
    /\ llmCache st'
       = <[key := List.length (items st)]> (delete victim (llmCache st))
    /\ counters st' = with_TotalItems incr (with_Evictions incr (counters st)).
Proof.
  intros Hon Hmin Hmax [Hitems Hstats] Hvisit Hfull Hold Hlt Hkeys. simpl.
  rewrite SetLLMCache_accepted by done. simpl.
  apply Z.leb_le in Hfull. rewrite Hfull.
  set (item := newItem now key response usage request st).
  set (st1 := set_items (items st ++ [item]) st).
  assert (Hread : forall k q, llmCache st !! k = Some q ->
                              item_at st1 q = item_at st q).
  { intros k q Hl. unfold item_at, st1. simpl.
    apply lookup_total_app_l. by apply (Hitems _ _ Hl). }
  destruct (scanOldest_result st1 order ("", evictNow))
    as [[_ Hall] | ([victim q] & Hin & Hscan & _ & Hleast)].
  { pose proof (Hall (older, p) (lookup_visits st order older p Hvisit Hold))
      as Hge. simpl in Hge. rewrite (Hread older p) in Hge by done. lia. }
  pose proof (visits_lookup st order (victim, q) Hvisit Hin) as Hq.
  simpl in Hq, Hscan, Hleast.
  exists victim, q. split; [done |]. split.
  { intros k q' Hl. simpl.
    pose proof (Hleast (k, q') (lookup_visits st order k q' Hvisit Hl)) as Hle.
    simpl in Hle. by rewrite (Hread victim q), (Hread k q') in Hle. }
  assert (Hevict : evictLRU order evictNow st1
                   = update_stats (with_Evictions incr)
                       (set_llmCache (delete victim (llmCache st1)) st1)).
  { unfold evictLRU. rewrite Hscan. simpl.
    destruct (String.eqb_spec victim ""); [| done].
    by pose proof (Hkeys victim q Hq). }
  rewrite Hevict.
  destruct (RedisEnabled (vars st)); (split; [done |]);
    unfold counters, stats_at; simpl;
    rewrite !list_lookup_total_alter_eq by (by rewrite ?length_alter);
    done.
Qed.

(** X6.  Eviction with ties: when an accepted insertion finds the store
    at capacity, some entry was last accessed before the clock reading of
    [evictLRU] and no key is the empty string, exactly one entry is
    removed, it is one whose last access is not later than that of any
    other entry, one eviction is counted, and the new key is bound. *)
Theorem insert_at_capacity_evicts_a_least_recent (st : State)
    (now evictNow : Z) (order : list (string * loc)) (key : string)
    (response : TextResponse) (usage : Usage)
    (request : GeneralOpenAIRequest) (older : string) (p : loc) :
  LLMCacheEnabled (vars st) = true ->
  LLMCacheMinResponseLength (vars st) <= len_string (responseText response) ->
  len_string (responseText response) <= LLMCacheMaxResponseLength (vars st) ->
  heap_closed st ->
  visits order st ->
  LLMCacheMaxSize (vars st) <= Z.of_nat (size (llmCache st)) ->
  llmCache st !! older = Some p ->
  LastAccessed (item_at st p) < evictNow ->
  map_Forall (fun k _ => k <> "") (llmCache st) ->
  let st' := SetLLMCache now evictNow order key response usage request st in
  exists victim q,
    llmCache st !! victim = Some q
    /\ map_Forall (fun _ q' => LastAccessed (item_at st q)
                               <= LastAccessed (item_at st q'))
                  (llmCache st)
    /\ llmCache st'
       = <[key := List.length (items st)]> (delete victim (llmCache st))
    /\ Evictions (counters st') = incr (Evictions (counters st)).
Proof.
  intros Hon Hmin Hmax Hclosed Hvisit Hfull Hold Hlt Hkeys st'.
  destruct (SetLLMCache_evicts now evictNow order key response usage request
              st older p Hon Hmin Hmax Hclosed Hvisit Hfull Hold Hlt Hkeys)
    as (victim & q & Hq & Hleast & Hmap & Hcnt).
  exists victim, q. fold st' in Hmap, Hcnt.
  split; [done |]. split; [done |]. split; [done |]. by rewrite Hcnt.
Qed.

(** X7.  The capacity is kept when the clock has advanced: if the store
    holds at most [LLMCacheMaxSize] entries, [LLMCacheMaxSize] is
    positive, no key is the empty string and every entry was last
    accessed before the clock reading of [evictLRU], then after an
    insertion the store still holds at most [LLMCacheMaxSize] entries. *)
Theorem capacity_kept_when_clock_advanced (st : State) (now evictNow : Z)
    (order : list (string * loc)) (key : string) (response : TextResponse)
    (usage : Usage) (request : GeneralOpenAIRequest) :
  heap_closed st ->
  visits order st ->
  0 < LLMCacheMaxSize (vars st) ->
  Z.of_nat (size (llmCache st)) <= LLMCacheMaxSize (vars st) ->
  map_Forall (fun k q => k <> ""
                         /\ LastAccessed (item_at st q) < evictNow)
             (llmCache st) ->
  let st' := SetLLMCache now evictNow order key response usage request st in
  Z.of_nat (size (llmCache st')) <= LLMCacheMaxSize (vars st').
Proof.
  intros Hclosed Hvisit Hpos Hsize Hall st'.
  destruct (LLMCacheEnabled (vars st)) eqn:Hon;
    [| unfold st'; by rewrite SetLLMCache_disabled].
  destruct (Z.lt_ge_cases (len_string (responseText response))
              (LLMCacheMinResponseLength (vars st))) as [Hlt | Hmin];
    [unfold st'; rewrite SetLLMCache_rejected; [done | by left] |].
  destruct (Z.lt_ge_cases (LLMCacheMaxResponseLength (vars st))
              (len_string (responseText response))) as [Hgt | Hmax];
    [unfold st'; rewrite SetLLMCache_rejected; [done | by right] |].
  destruct (SetLLMCache_stores now evictNow order key response usage
              request st Hon Hmin Hmax) as (_ & _ & Hvars).
  fold st' in Hvars. rewrite Hvars.
  destruct (Z.lt_ge_cases (Z.of_nat (size (llmCache st)))
              (LLMCacheMaxSize (vars st))) as [Hroom | Hfull].
  - destruct (SetLLMCache_below_capacity now evictNow order key response
                usage request st Hon Hmin Hmax Hclosed Hroom) as [Hmap _].
    fold st' in Hmap. rewrite Hmap, map_size_insert.
    destruct (llmCache st !! key); simpl; lia.
  - assert (Hne : size (llmCache st) <> 0%nat) by lia.
    apply map_size_ne_0_lookup in Hne as [older [p Hold]].
    destruct (Hall older p Hold) as [_ Hlt].
    destruct (SetLLMCache_evicts now evictNow order key response usage
                request st older p Hon Hmin Hmax Hclosed Hvisit Hfull Hold Hlt)
      as (victim & q & Hq & _ & Hmap & _).
    { intros k q' Hl. by destruct (Hall k q' Hl). }
    fold st' in Hmap. rewrite Hmap, map_size_insert.
    assert (Hdel : size (delete victim (llmCache st))
                   = Nat.pred (size (llmCache st))).
    { apply map_size_delete_Some. by exists q. }
    destruct (delete victim (llmCache st) !! key); simpl; lia.
Qed.

End EvictionMore.

Section EvictionMoreChecks.
Import Sample.
#[local] Existing Instance text_model.

(** Two entries at most; "a" and "b" stored in second 100 and "c" in
    second 101. *)
Lemma insert_at_capacity_evicts_a_least_recent_witness :
  let st := insert_at 100 "b" (insert_at 100 "a" (configured true 2)) in
  let st' := insert_at 101 "c" st in
  exists victim q,
    llmCache st !! victim = Some q
    /\ map_Forall (fun _ q' => LastAccessed (item_at st q)
                               <= LastAccessed (item_at st q'))
                  (llmCache st)
    /\ llmCache st'
       = <[ "c" := List.length (items st)]> (delete victim (llmCache st))
    /\ Evictions (counters st') = incr (Evictions (counters st)).
Proof.
  intros st.
  apply (insert_at_capacity_evicts_a_least_recent st 101 101
           (map_to_list (llmCache st)) "c" answer 21 question "a" 0%nat).
  - reflexivity.
  - vm_compute. discriminate.
  - vm_compute. discriminate.
  - split; [by_computation | vm_compute; lia].
  - apply visits_map_to_list.
  - vm_compute. discriminate.
  - vm_compute. reflexivity.
  - vm_compute. reflexivity.
  - by_computation.
Defined.

Lemma capacity_kept_when_clock_advanced_witness :
  let st := insert_at 100 "b" (insert_at 100 "a" (configured true 2)) in
  let st' := insert_at 101 "c" st in
  Z.of_nat (size (llmCache st')) <= LLMCacheMaxSize (vars st').
Proof.
  intros st.
  apply (capacity_kept_when_clock_advanced st 101 101
           (map_to_list (llmCache st)) "c" answer 21 question).
  - split; [by_computation | vm_compute; lia].
  - apply visits_map_to_list.
  - vm_compute. reflexivity.
  - vm_compute. discriminate.
  - by_computation.
Defined.

End EvictionMoreChecks.

(** ** Deletion, clearing, the mirror and the configuration *)

Section AdminFacts.
Context `{RM : RelayModel}.

Implicit Types (st : State) (key : string) (p : loc).
Implicit Types (order : list (string * loc)).

(** X8.  [DeleteLLMCacheItem] removes the binding of its key and of no
    other key; when the key is not bound it changes nothing at all, so a
    second deletion is a no-op; afterwards a lookup of the key returns
    not-found; and the mirror is asked to delete the key exactly when the
    key was bound and [common.RedisEnabled] is set. *)
Theorem delete_removes_only_its_key (st : State) (key : string) :
  let st' := DeleteLLMCacheItem key st in
  llmCache st' = delete key (llmCache st)
  /\ (llmCache st !! key = None -> st' = st)
  /\ DeleteLLMCacheItem key st' = st'
  /\ (forall t t', (GetLLMCache t t' key st').1 = None)
  /\ (forall key', key' <> key -> llmCache st' !! key' = llmCache st !! key')
  /\ spawned st'
     = spawned st
       ++ match llmCache st !! key with
          | Some _ => if RedisEnabled (vars st) then [GoRedisDel key] else []
          | None => []
          end.
Proof.
  intros st'.
  assert (Hmap : llmCache st' = delete key (llmCache st)).
  { unfold st', DeleteLLMCacheItem.
    destruct (llmCache st !! key) eqn:Hl; simpl.
    - by destruct (RedisEnabled (vars st)).
    - symmetry. by apply delete_id. }
  assert (Hgone : llmCache st' !! key = None).
  { rewrite Hmap. apply lookup_delete_eq. }
  split; [done |]. split; [| split; [| split; [| split]]].
  - intros Hl. unfold st', DeleteLLMCacheItem. by rewrite Hl.
  - unfold DeleteLLMCacheItem at 1. by rewrite Hgone.
  - intros t t'. unfold GetLLMCache.
    destruct (LLMCacheEnabled (vars st')); [simpl | done]. by rewrite Hgone.
  - intros key' Hne. rewrite Hmap. by apply lookup_delete_ne.
  - unfold st', DeleteLLMCacheItem.
    destruct (llmCache st !! key) eqn:Hl; simpl.
    + destruct (RedisEnabled (vars st)); simpl; by rewrite ?app_nil_r.
    + by rewrite app_nil_r.
Qed.

(** X9.  [ClearLLMCache] leaves an empty map and zeroed counters and does
    not touch the configuration record or the variables; afterwards every
    lookup returns not-found and the snapshot of the statistics is zero in
    every field but the capacity; the mirror is asked to delete the keys
    matching ["llm_cache:*"] exactly when [common.RedisEnabled] is set. *)
Theorem clear_empties_the_store (st : State) :
  let st' := ClearLLMCache st in
  llmCache st' = ∅
  /\ counters st' = zeroStats
  /\ llmCacheConfig st' = llmCacheConfig st
  /\ vars st' = vars st
  /\ (forall t t' key, (GetLLMCache t t' key st').1 = None)
  /\ stats_at (GetLLMCacheStats st').2 (GetLLMCacheStats st').1
     = with_MaxSize (LLMCacheMaxSize (vars st)) zeroStats
  /\ spawned st'
     = spawned st
       ++ (if RedisEnabled (vars st)
           then [GoRedisDelPattern "llm_cache:*"] else []).
Proof.
  intros st'.
  assert (Hmap : llmCache st' = ∅).
  { unfold st', ClearLLMCache. simpl. by destruct (RedisEnabled (vars st)). }
  assert (Hcnt : counters st' = zeroStats).
  { unfold st', ClearLLMCache, counters, stats_at. simpl.
    destruct (RedisEnabled (vars st)); simpl;
      by apply list_lookup_total_middle. }
  assert (Hvars : vars st' = vars st).
  { unfold st', ClearLLMCache. simpl. by destruct (RedisEnabled (vars st)). }
  split; [done |]. split; [done |]. split; [| split; [done | split; [| split]]].
  - unfold st', ClearLLMCache. simpl. by destruct (RedisEnabled (vars st)).
  - intros t t' key. unfold GetLLMCache.
    destruct (LLMCacheEnabled (vars st')); [simpl | done].
    by rewrite Hmap, lookup_empty.
  - unfold GetLLMCacheStats. simpl. unfold stats_at at 1. simpl.
    rewrite list_lookup_total_middle by done.
    fold (counters st'). rewrite Hcnt, Hmap, Hvars, map_size_empty.
    reflexivity.
  - unfold st', ClearLLMCache. simpl.
    destruct (RedisEnabled (vars st)); simpl; [done | by rewrite app_nil_r].
Qed.

Lemma cleanExpiredCache_tick_spawned order now st :
  spawned (cleanExpiredCache_tick order now st) = spawned st.
Proof. by destruct (cleanExpiredCache_tick_parts order now st) as (_&_&_&_&_&H&_). Qed.

(** X10.  Which functions talk to the mirror.  A lookup (also one that
    removes an expired entry), an eviction, a tick of the sweeper, a
    snapshot of the statistics and an update of the configuration start no
    goroutine, so an entry they remove stays in the mirror until its own
    expiry there.  An insertion starts exactly one, and only when it
    stores the item and [common.RedisEnabled] is set: a set-with-expiry
    of the new item under its key with the full [LLMCacheTTL]. *)
Theorem mirror_written_only_by_insert_delete_clear (st : State) :
  (forall t t' key, spawned (GetLLMCache t t' key st).2 = spawned st)
  /\ (forall order now, spawned (evictLRU order now st) = spawned st)
  /\ (forall order now, spawned (cleanExpiredCache_tick order now st)
                        = spawned st)
  /\ spawned (GetLLMCacheStats st).2 = spawned st
  /\ (forall config, spawned (UpdateLLMCacheConfig config st) = spawned st)
  /\ (forall now evictNow order key response usage request,
        let n := len_string (responseText response) in
        spawned (SetLLMCache now evictNow order key response usage request st)
        = spawned st
          ++ (if LLMCacheEnabled (vars st)
                 && (LLMCacheMinResponseLength (vars st) <=? n)
                 && (n <=? LLMCacheMaxResponseLength (vars st))
                 && RedisEnabled (vars st)
              then [GoRedisSetEx key (List.length (items st))
                      (LLMCacheTTL (vars st))]
              else [])).
Proof.
  split; [| split; [| split; [| split; [| split]]]].
  - intros t t' key. unfold GetLLMCache.
    destruct (LLMCacheEnabled (vars st)); [simpl | done].
    destruct (llmCache st !! key) as [item |]; [| done].
    by destruct (ExpiresAt (item_at st item) <? t).
  - intros order now. unfold evictLRU. by destruct (String.eqb _ _).
  - intros order now. apply cleanExpiredCache_tick_spawned.
  - done.
  - intros config. unfold UpdateLLMCacheConfig. by destruct (Enabled config).
  - intros now evictNow order key response usage request n.
    destruct (LLMCacheEnabled (vars st)) eqn:Hon;
      [| rewrite SetLLMCache_disabled by done; simpl; by rewrite app_nil_r].
    destruct (Z.lt_ge_cases n (LLMCacheMinResponseLength (vars st)))
      as [Hlt | Hmin].
    { rewrite SetLLMCache_rejected by (by left).
      assert (Hb : (LLMCacheMinResponseLength (vars st) <=? n) = false) by lia.
      rewrite Hb. simpl. by rewrite app_nil_r. }
    destruct (Z.lt_ge_cases (LLMCacheMaxResponseLength (vars st)) n)
      as [Hgt | Hmax].
    { rewrite SetLLMCache_rejected by (by right).
      assert (Hb : (n <=? LLMCacheMaxResponseLength (vars st)) = false) by lia.
      rewrite Hb, andb_false_r. simpl. by rewrite app_nil_r. }
    rewrite SetLLMCache_accepted by done. simpl.
    assert (Hb1 : (LLMCacheMinResponseLength (vars st) <=? n) = true) by lia.
    assert (Hb2 : (n <=? LLMCacheMaxResponseLength (vars st)) = true) by lia.
    rewrite Hb1, Hb2. simpl.
    destruct (LLMCacheMaxSize (vars st) <=? Z.of_nat (size (llmCache st)));
      destruct (RedisEnabled (vars st)); simpl;
      unfold evictLRU; try destruct (String.eqb _ _); simpl;
      by rewrite ?app_nil_r.
Qed.

(** X11.  An update whose configuration has [Enabled = true] changes the
    configuration record and nothing else, and the record has no effect on
    what follows: a lookup or an insertion after the update gives the
    result, and makes the changes, it would have given before it, whatever
    time-to-live, capacity and length bounds the record carries. *)
Theorem enabled_update_changes_only_the_record (st : State)
    (config : LLMCacheConfig) :
  Enabled config = true ->
  let st' := UpdateLLMCacheConfig config st in
  GetLLMCacheConfig st' = config
  /\ llmCache st' = llmCache st
  /\ counters st' = counters st
  /\ vars st' = vars st
  /\ items st' = items st
  /\ (forall t t' key,
        GetLLMCache t t' key st'
        = ((GetLLMCache t t' key st).1,
           UpdateLLMCacheConfig config (GetLLMCache t t' key st).2))
  /\ (forall now evictNow order key response usage request,
        SetLLMCache now evictNow order key response usage request st'
        = UpdateLLMCacheConfig config
            (SetLLMCache now evictNow order key response usage request st)).
Proof.
  intros Hon st'.
  assert (Hupd : forall s, UpdateLLMCacheConfig config s
                           = set_llmCacheConfig config s).
  { intros s. unfold UpdateLLMCacheConfig. by rewrite Hon. }
  unfold st'. rewrite Hupd.
  do 5 (split; [done |]). split.
  - intros t t' key. rewrite Hupd.
    apply GetLLMCache_ignores_llmCacheConfig.
  - intros. rewrite Hupd. apply SetLLMCache_ignores_llmCacheConfig.
Qed.


End AdminFacts.

Section AdminChecks.
Import Sample.
#[local] Existing Instance text_model.

Lemma enabled_update_changes_only_the_record_witness :
  let config :=
    {| Enabled := true; TTL := 60; cfgMaxSize := 1;
       MinResponseLength := 1000; MaxResponseLength := 2000;
       SimilarityThreshold := "0.5" |} in
  let st := insert_at 100 "k" started in
  let st' := UpdateLLMCacheConfig config st in
  GetLLMCacheConfig st' = config
  /\ llmCache st' = llmCache st
  /\ counters st' = counters st
  /\ vars st' = vars st
  /\ items st' = items st
  /\ (forall t t' key,
        GetLLMCache t t' key st'
        = ((GetLLMCache t t' key st).1,
           UpdateLLMCacheConfig config (GetLLMCache t t' key st).2))
  /\ (forall now evictNow order key response usage request,
        SetLLMCache now evictNow order key response usage request st'
        = UpdateLLMCacheConfig config
            (SetLLMCache now evictNow order key response usage request st)).
Proof.
  intros config st.
  apply (enabled_update_changes_only_the_record st config). reflexivity.
Defined.


End AdminChecks.

(** ** What every sequence of calls keeps *)

Section Invariant.
Context `{RM : RelayModel}.

Implicit Types (st : State) (key : string) (p : loc).
Implicit Types (order : list (string * loc)).

Lemma keyed_update_stats f st : keyed st -> keyed (update_stats f st).
Proof. done. Qed.

Lemma keyed_delete key st :
  keyed st -> keyed (set_llmCache (delete key (llmCache st)) st).
Proof. intros Hk. by apply map_Forall_delete. Qed.

Lemma keyed_touch p now st : keyed st -> keyed (update_item p (touch now) st).
Proof.
  intros Hk key q Hl. simpl in Hl. rewrite item_at_update_item.
  destruct (decide _) as [[-> _] |]; [simpl |]; by apply (Hk key).
Qed.

Lemma keyed_evictLRU order now st : keyed st -> keyed (evictLRU order now st).
Proof.
  intros Hk. unfold evictLRU. destruct (String.eqb _ _); [done |].
  by apply keyed_update_stats, keyed_delete.
Qed.

Lemma keyed_GetLLMCache t t' key st :
  keyed st -> keyed (GetLLMCache t t' key st).2.
Proof.
  intros Hk. unfold GetLLMCache.
  destruct (LLMCacheEnabled (vars st)); [simpl | done].
  destruct (llmCache st !! key) as [item |]; [| done].
  destruct (ExpiresAt (item_at st item) <? t); simpl.
  - by apply keyed_update_stats, keyed_update_stats, keyed_delete.
  - by apply keyed_update_stats, keyed_touch.
Qed.

Lemma keyed_SetLLMCache now evictNow order key response usage request st :
  heap_closed st -> keyed st ->
  keyed (SetLLMCache now evictNow order key response usage request st).
Proof.
  intros [Hitems _] Hk.
  destruct (LLMCacheEnabled (vars st)) eqn:Hon;
    [| by rewrite SetLLMCache_disabled].
  destruct (Z.lt_ge_cases (len_string (responseText response))
              (LLMCacheMinResponseLength (vars st))) as [Hlt | Hmin];
    [rewrite SetLLMCache_rejected; [done | by left] |].
  destruct (Z.lt_ge_cases (LLMCacheMaxResponseLength (vars st))
              (len_string (responseText response))) as [Hgt | Hmax];
    [rewrite SetLLMCache_rejected; [done | by right] |].
  rewrite SetLLMCache_accepted by done. simpl.
  set (item := newItem now key response usage request st).
  set (st1 := set_items (items st ++ [item]) st).
  assert (Hk1 : keyed st1).
  { intros k q Hl. simpl in Hl. unfold item_at, st1. simpl.
    rewrite lookup_total_app_l by (by apply (Hitems _ _ Hl)).
    by apply (Hk k). }
  assert (Hbind : forall st2,
             keyed st2 -> items st2 = items st ++ [item] ->
             keyed (update_stats (with_TotalItems incr)
                      (set_llmCache
                         (<[key := List.length (items st)]> (llmCache st2))
                         st2))).
  { intros st2 Hk2 Hheap. apply keyed_update_stats.
    apply map_Forall_insert_2; [| done]. unfold item_at. simpl.
    rewrite Hheap. by rewrite list_lookup_total_middle. }
  destruct (LLMCacheMaxSize (vars st) <=? Z.of_nat (size (llmCache st)));
    destruct (RedisEnabled (vars st));
    apply Hbind; try (by apply keyed_evictLRU); by rewrite ?evictLRU_items.
Qed.

Lemma cleanExpiredCache_tick_kept_bindings order now st key p :
  llmCache (cleanExpiredCache_tick order now st) !! key = Some p ->
  llmCache st !! key = Some p.
Proof.
  destruct (cleanExpiredCache_tick_parts order now st) as (-> & _).
  unfold swept. generalize (llmCache st) as m.
  induction order as [| e order IH]; intros m; simpl; [done |].
  intros Hl. apply IH in Hl.
  destruct (ExpiresAt (items st !!! e.2) <? now); [| done].
  apply lookup_delete_Some in Hl. tauto.
Qed.

Lemma kept_cleanExpiredCache_tick order now st :
  heap_closed st -> keyed st ->
  heap_closed (cleanExpiredCache_tick order now st)
  /\ keyed (cleanExpiredCache_tick order now st).
Proof.
  intros [Hitems Hstats] Hk.
  destruct (cleanExpiredCache_tick_parts order now st)
    as (_ & Hheap & _ & Hp & _ & _ & Hlen).
  split; [split |].
  - intros key p Hl. rewrite Hheap.
    apply (Hitems key). by apply (cleanExpiredCache_tick_kept_bindings order now).
  - by rewrite Hp, Hlen.
  - intros key p Hl. unfold item_at. rewrite Hheap.
    apply (Hk key). by apply (cleanExpiredCache_tick_kept_bindings order now).
Qed.

Lemma kept_run c st :
  heap_closed st /\ keyed st -> heap_closed (run c st) /\ keyed (run c st).
Proof.
  intros [Hc Hk]. destruct c; simpl.
  - unfold InitLLMCache. destruct (LLMCacheEnabled (vars st)); simpl;
      [split; [by apply heap_closed_spawn | done] | done].
  - split; [by apply heap_closed_GetLLMCache | by apply keyed_GetLLMCache].
  - split; [by apply heap_closed_SetLLMCache | by apply keyed_SetLLMCache].
  - by apply kept_cleanExpiredCache_tick.
  - split; [by apply heap_closed_GetLLMCacheStats | done].
  - split; [apply heap_closed_ClearLLMCache |].
    unfold ClearLLMCache, keyed. simpl.
    destruct (RedisEnabled (vars st)); apply map_Forall_empty.
  - split; [by apply heap_closed_DeleteLLMCacheItem |].
    unfold DeleteLLMCacheItem. destruct (llmCache st !! key); [| done]. simpl.
    destruct (RedisEnabled (vars st)); by apply keyed_delete.
  - split; [by apply heap_closed_UpdateLLMCacheConfig |].
    unfold UpdateLLMCacheConfig. destruct (Enabled config); simpl; [done |].
    apply map_Forall_empty.
  - destruct Hc as [Hitems Hstats]. by split.
Qed.

(** X13.  In every state the package reaches from its initial state by
    calls of its own functions, in any number and order and with any clock
    readings and visiting orders, each entry's [RequestHash] is the key it
    is stored under; so no two keys share an item, and the key of an
    entry returned by [GetLLMCacheItems] can be read off the entry. *)
Theorem entries_carry_their_key (calls : list Call) (threshold : float64)
    (redis : bool) :
  let st := run_all calls (package_init threshold redis) in
  (forall key p, llmCache st !! key = Some p ->
                 RequestHash (item_at st p) = key)
  /\ (forall key1 key2 p,
        llmCache st !! key1 = Some p -> llmCache st !! key2 = Some p ->
        key1 = key2)
  /\ (forall order p, visits order st -> p ∈ GetLLMCacheItems order st ->
        llmCache st !! RequestHash (item_at st p) = Some p).
Proof.
  intros st.
  assert (Hinv : heap_closed st /\ keyed st).
  { unfold st, run_all.
    assert (Hgen : forall s, heap_closed s /\ keyed s ->
                             heap_closed (foldl (fun s c => run c s) s calls)
                             /\ keyed (foldl (fun s c => run c s) s calls)).
    { induction calls as [| c calls IH]; intros s Hs; simpl; [done |].
      apply IH. by apply kept_run. }
    apply Hgen. split; [apply heap_closed_package_init |].
    apply map_Forall_empty. }
  destruct Hinv as [_ Hk].
  split; [exact Hk | split].
  - intros key1 key2 p H1 H2.
    by rewrite <- (Hk key1 p H1), <- (Hk key2 p H2).
  - intros order p Hvisit Hin.
    apply GetLLMCacheItems_live in Hin as [key Hl]; [| done].
    by rewrite (Hk key p Hl).
Qed.

End Invariant.

(** * Further properties of the key *)

Section KeyMore.
Context `{RM : RelayModel} `{GL : !GoLibrary}.

Lemma hexDigit_inj (a b : N) :
  (a < 16)%N -> (b < 16)%N -> hexDigit a = hexDigit b -> a = b.
Proof.
  intros Ha Hb.
  assert (Htable :
    Forall (fun x => Forall (fun y => hexDigit x = hexDigit y -> x = y)
                       (N.of_nat <$> seq 0 16))
           (N.of_nat <$> seq 0 16)) by by_computation.
  assert (Hin : forall n : N, (n < 16)%N -> n ∈ (N.of_nat <$> seq 0 16)).
  { intros n Hn. apply list_elem_of_fmap. exists (N.to_nat n).
    split; [by rewrite N2Nat.id |]. apply elem_of_seq. lia. }
  rewrite Forall_forall in Htable.
  pose proof (Htable a (Hin a Ha)) as Hrow.
  rewrite Forall_forall in Hrow. apply Hrow. by apply Hin.
Qed.

Lemma hex_byte_inj (b1 b2 : byte) :
  hexDigit (Byte.to_N b1 / 16) = hexDigit (Byte.to_N b2 / 16) ->
  hexDigit (Byte.to_N b1 mod 16) = hexDigit (Byte.to_N b2 mod 16) ->
  b1 = b2.
Proof.
  intros Hhi Hlo.
  pose proof (Byte.to_N_bounded b1) as H1.
  pose proof (Byte.to_N_bounded b2) as H2.
  apply hexDigit_inj in Hhi;
    [| apply N.Div0.div_lt_upper_bound; lia
     | apply N.Div0.div_lt_upper_bound; lia].
  apply hexDigit_inj in Hlo; [| by apply N.mod_lt | by apply N.mod_lt].
  assert (Heq : Byte.to_N b1 = Byte.to_N b2).
  { rewrite (N.div_mod (Byte.to_N b1) 16), (N.div_mod (Byte.to_N b2) 16)
      by done. by rewrite Hhi, Hlo. }
  pose proof (Byte.of_to_N b1) as Hof1. pose proof (Byte.of_to_N b2) as Hof2.
  rewrite Heq in Hof1. congruence.
Qed.

(** The hexadecimal rendering loses nothing. *)
Lemma hex_inj (bs1 bs2 : list byte) : hex bs1 = hex bs2 -> bs1 = bs2.
Proof.
  revert bs2. induction bs1 as [| b1 bs1 IH]; intros [| b2 bs2] Heq;
    simpl in Heq; try done.
  injection Heq as Hhi Hlo Hrest.
  f_equal; [by apply hex_byte_inj | by apply IH].
Qed.

(** X14.  Two requests whose fields serialise get the same key exactly
    when the digests of their serialisations are equal: the hexadecimal
    rendering and the prefix lose nothing.  Such a key has 74 characters,
    so it is never the empty key of a request that does not serialise. *)
Theorem equal_keys_equal_digests (r1 r2 : GeneralOpenAIRequest)
    (j1 j2 : list byte) :
  json_Marshal (cacheData r1) = Some j1 ->
  json_Marshal (cacheData r2) = Some j2 ->
  (GenerateCacheKey r1 = GenerateCacheKey r2
   <-> sha256_Sum256 j1 = sha256_Sum256 j2)
  /\ String.length (GenerateCacheKey r1) = 74%nat
  /\ (forall r3, json_Marshal (cacheData r3) = None ->
                 GenerateCacheKey r3 <> GenerateCacheKey r1).
Proof.
  intros H1 H2. unfold GenerateCacheKey. rewrite H1, H2.
  split; [| split].
  - split.
    + intros Heq. simpl in Heq. injection Heq as Heq.
      apply hex_inj in Heq. by apply vec_to_list_inj2.
    + by intros ->.
  - cbv [String.append]. simpl. rewrite hex_length, length_vec_to_list.
    reflexivity.
  - intros r3 H3. rewrite H3. simpl. discriminate.
Qed.

End KeyMore.

Section KeyMoreChecks.
Import Sample.
#[local] Existing Instance text_model.
#[local] Existing Instance text_library.

Lemma equal_keys_equal_digests_witness :
  let r2 :=
    {| reqModel := "gpt-4"; Messages := ["What is the capital of Spain?"];
       MaxTokens := 0; Temperature := None; TopP := None;
       FrequencyPenalty := "0"; PresencePenalty := "0"; Stream := false;
       reqRest := "" |} in
  (GenerateCacheKey question = GenerateCacheKey r2
   <-> sha256_Sum256 (encode (cacheData question))
       = sha256_Sum256 (encode (cacheData r2)))
  /\ String.length (GenerateCacheKey question) = 74%nat
  /\ (forall r3, json_Marshal (cacheData r3) = None ->
                 GenerateCacheKey r3 <> GenerateCacheKey question).
Proof.
  intros r2.
  apply (equal_keys_equal_digests question r2); reflexivity.
Defined.

End KeyMoreChecks.

(** * Properties of the middleware *)

Section MiddlewareMore.
Context `{RM : RelayModel} `{GL : !GoLibrary} `{RD : !RequestDecoder}.

Implicit Types (st : State) (key : string) (p : loc).
Implicit Types (calls : list WriterCall) (w : responseCaptureWriter).

(** The test of [shouldCache] implies the length test of [SetLLMCache]. *)
Lemma shouldCache_accepted response st :
  shouldCache response st = true ->
  LLMCacheMinResponseLength (vars st) <= len_string (responseText response)
  /\ len_string (responseText response) <= LLMCacheMaxResponseLength (vars st).
Proof.
  unfold shouldCache, responseText.
  destruct (Choices response) as [| c rest]; [done |]. cbv zeta.
  destruct (len_string (StringContent (choiceMessage c))
            <? LLMCacheMinResponseLength (vars st)) eqn:Hmin; [done |].
  destruct (LLMCacheMaxResponseLength (vars st)
            <? len_string (StringContent (choiceMessage c))) eqn:Hmax;
    [done |].
  intros _. apply Z.ltb_ge in Hmin. apply Z.ltb_ge in Hmax. done.
Qed.

Lemma handleCacheResponse_cacheable now evictNow order cacheKey request
    responseBody response st :
  json_Unmarshal responseBody = Some response ->
  shouldCache response st = true ->
  handleCacheResponse now evictNow order cacheKey request responseBody st
  = SetLLMCache now evictNow order cacheKey response (respUsage response)
      request st.
Proof. intros Hbody Hyes. unfold handleCacheResponse. by rewrite Hbody, Hyes. Qed.

(** A lookup, up to the expiry, of what [handleCacheResponse] stored. *)
Lemma handleCacheResponse_then_hit now evictNow order cacheKey request
    responseBody response st t t' :
  LLMCacheEnabled (vars st) = true ->
  json_Unmarshal responseBody = Some response ->
  shouldCache response st = true ->
  in_int64 (now + LLMCacheTTL (vars st)) ->
  t <= now + LLMCacheTTL (vars st) ->
  let st' :=
    handleCacheResponse now evictNow order cacheKey request responseBody st in
  let p := List.length (items st) in
  GetLLMCache t t' cacheKey st'
  = (Some p, update_stats (with_Hits incr) (update_item p (touch t') st'))
  /\ item_at st' p
     = newItem now cacheKey response (respUsage response) request st
  /\ (p < List.length (items st'))%nat.
Proof.
  intros Hon Hbody Hyes Hsum Ht. simpl.
  rewrite (handleCacheResponse_cacheable _ _ _ _ _ _ response) by done.
  destruct (shouldCache_accepted response st Hyes) as [Hmin Hmax].
  destruct (SetLLMCache_stores now evictNow order cacheKey response
              (respUsage response) request st Hon Hmin Hmax)
    as (Hkey & Hitems & Hvars).
  set (st' := SetLLMCache _ _ _ _ _ _ _ _) in *.
  assert (Hitem : item_at st' (List.length (items st))
                  = newItem now cacheKey response (respUsage response)
                      request st).
  { unfold item_at. rewrite Hitems. by apply list_lookup_total_middle. }
  split; [| split; [done |]].
  - apply GetLLMCache_hit; [by rewrite Hvars | done |].
    rewrite Hitem. simpl. unfold add64. by rewrite wrap64_in_range.
  - rewrite Hitems, length_app. simpl. lia.
Qed.

(** X15.  A response that [shouldCache] accepts is stored by
    [handleCacheResponse] when the cache is enabled: up to the expiry a
    lookup of the key returns an item that holds this response and its
    usage. *)
Theorem cacheable_response_is_stored (st : State) (now evictNow : Z)
    (order : list (string * loc)) (cacheKey : string)
    (request : GeneralOpenAIRequest) (responseBody : list byte)
    (response : TextResponse) (t t' : Z) :
  LLMCacheEnabled (vars st) = true ->
  json_Unmarshal responseBody = Some response ->
  shouldCache response st = true ->
  in_int64 (now + LLMCacheTTL (vars st)) ->
  t <= now + LLMCacheTTL (vars st) ->
  let st' :=
    handleCacheResponse now evictNow order cacheKey request responseBody st in
  let found := GetLLMCache t t' cacheKey st' in
  exists p,
    found.1 = Some p
    /\ Response (item_at found.2 p) = response
    /\ itemUsage (item_at found.2 p) = respUsage response
    /\ HitCount (item_at found.2 p) = 1.
Proof.
  intros Hon Hbody Hyes Hsum Ht st' found.
  destruct (handleCacheResponse_then_hit now evictNow order cacheKey request
              responseBody response st t t' Hon Hbody Hyes Hsum Ht)
    as (Hfound & Hitem & Hp).
  fold st' in Hfound, Hitem, Hp. fold found in Hfound.
  exists (List.length (items st)). rewrite Hfound. simpl.
  rewrite item_at_update_stats, item_at_update_item.
  rewrite decide_True by done. rewrite Hitem. simpl.
  split; [done |]. split; [done |]. split; [done |].
  by apply wrap64_in_range.
Qed.

(** X16.  The capturing writer is transparent and records what the
    middleware needs: after any sequence of calls, from whatever it held
    before, the embedded writer has received every call, unchanged and in
    order; the captured body has grown by the concatenation of what
    [Write] and [WriteString] were given; and the captured status is the
    code of the last [WriteHeader], or the status held before when
    [WriteHeader] was not called, which is 0 for the writer the
    middleware installs. *)
Theorem capture_writer_is_transparent (w : responseCaptureWriter)
    (calls : list WriterCall) :
  let w' := foldl call w calls in
  ResponseWriter w' = ResponseWriter w ++ calls
  /\ body w'
     = body w
       ++ concat ((fun c => match c with
                            | DoWrite b => b
                            | DoWriteString s => list_byte_of_string s
                            | _ => []
                            end) <$> calls)
  /\ statusCode w'
     = default (statusCode w)
         (last (omap (fun c => match c with
                               | DoWriteHeader code => Some code
                               | _ => None
                               end) calls))
  /\ statusCode newCaptureWriter = 0.
Proof.
  revert w. induction calls as [| c calls IH]; intros w; simpl.
  - by rewrite !app_nil_r.
  - destruct (IH (call w c)) as (Hrw & Hbody & Hstatus & _).
    rewrite Hrw, Hbody, Hstatus.
    destruct c; simpl; rewrite <- ?app_assoc; (split; [done |]);
      (split; [done |]); (split; [| done]); try done.
    rewrite last_cons. by destruct (last _).
Qed.

(** The captured status is the initial one or a code given to
    [WriteHeader]. *)
Lemma statusCode_from w calls :
  statusCode (foldl call w calls) = statusCode w
  \/ DoWriteHeader (statusCode (foldl call w calls)) ∈ calls.
Proof.
  revert w. induction calls as [| c calls IH]; intros w; simpl; [by left |].
  destruct (IH (call w c)) as [Heq | Hin]; [| right; by right].
  rewrite Heq. destruct c; simpl; try by left.
  right. by left.
Qed.

(** X17.  The requests the middleware hands on without consulting the
    cache.  In each of three cases the remaining handlers run once, on the
    writer of the context and on the state as it was, and the middleware
    does nothing before or after: no lookup is counted and nothing is
    stored.  A request that is not a POST, whose path does not end in
    ["/chat/completions"] or whose [Content-Type] does not contain
    ["application/json"] is handed on with its body unread.  A cacheable
    request whose body cannot be read is handed on with the body
    consumed: the middleware does not put it back.  A cacheable request
    whose body is read but cannot be decoded, or gives the empty key, is
    handed on with a new buffer of the bytes read. *)
Theorem uncacheable_request_passes_through (r : Readings) (c : Request)
    (next : BodyState -> State -> list WriterCall * State) (st : State) :
  (Method c <> "POST"
   \/ strings_HasSuffix (URLPath c) "/chat/completions" = false
   \/ strings_Contains (ContentType c) "application/json" = false ->
   LLMCacheMiddleware r c next st
   = (Passed (next Unread st).1, (next Unread st).2))
  /\ (isCacheableRequest c = true ->
      RequestBody c = None ->
      LLMCacheMiddleware r c next st
      = (Passed (next Consumed st).1, (next Consumed st).2))
  /\ (forall b,
        isCacheableRequest c = true ->
        RequestBody c = Some b ->
        json_Unmarshal_request b = None
        \/ (exists request,
              json_Unmarshal_request b = Some request
              /\ GenerateCacheKey request = "") ->
        LLMCacheMiddleware r c next st
        = (Passed (next (Restored b) st).1, (next (Restored b) st).2)).
Proof.
  split; [| split].
  - intros Hcase.
    assert (Hc : isCacheableRequest c = false).
    { unfold isCacheableRequest.
      destruct Hcase as [Hm | [Hp | Ht]].
      - apply String.eqb_neq in Hm. by rewrite Hm.
      - rewrite Hp. by destruct (String.eqb (Method c) "POST").
      - rewrite Ht. destruct (String.eqb (Method c) "POST"); [| done].
        by destruct (strings_HasSuffix (URLPath c) "/chat/completions"). }
    unfold LLMCacheMiddleware. by rewrite Hc.
  - intros Hc Hb. unfold LLMCacheMiddleware. by rewrite Hc, Hb.
  - intros b Hc Hb [Hd | (request & Hd & Hk)];
      unfold LLMCacheMiddleware; rewrite Hc, Hb, Hd; simpl; [done |].
    by rewrite Hk.
Qed.

(** X18.  A cacheable request whose key is bound to an item that has not
    expired is answered from the cache: the response written is the one
    stored, the remaining handlers are not run (the result is the same
    whatever they would do), and the state changes as by the lookup
    alone. *)
Theorem cached_request_is_served_without_upstream (r : Readings)
    (c : Request) (next next' : BodyState -> State -> list WriterCall * State)
    (st : State) (requestBody : list byte) (request : GeneralOpenAIRequest)
    (p : loc) :
  isCacheableRequest c = true ->
  RequestBody c = Some requestBody ->
  json_Unmarshal_request requestBody = Some request ->
  GenerateCacheKey request <> "" ->
  LLMCacheEnabled (vars st) = true ->
  llmCache st !! GenerateCacheKey request = Some p ->
  atLookup r <= ExpiresAt (item_at st p) ->
  LLMCacheMiddleware r c next st
  = (Served (Response (item_at st p)),
     (GetLLMCache (atLookup r) (atTouch r) (GenerateCacheKey request) st).2)
  /\ LLMCacheMiddleware r c next' st = LLMCacheMiddleware r c next st.
Proof.
  intros Hc Hb Hd Hk Hon Hp Ht.
  assert (Hrun : forall nx,
             LLMCacheMiddleware r c nx st
             = (Served (Response (item_at st p)),
                (GetLLMCache (atLookup r) (atTouch r)
                   (GenerateCacheKey request) st).2)).
  { intros nx. unfold LLMCacheMiddleware. rewrite Hc, Hb, Hd. simpl.
    apply String.eqb_neq in Hk. rewrite Hk.
    rewrite (GetLLMCache_hit _ _ _ st p) by done. simpl.
    rewrite item_at_update_stats, item_at_update_item.
    by destruct (decide _). }
  split; [apply Hrun | by rewrite !Hrun].
Qed.

(** X19.  The round trip through the middleware.  When a cacheable
    request misses, the remaining handlers answer with status 200 and a
    body that decodes to a response [shouldCache] accepts, and the cache
    is enabled, then the same request, arriving up to the expiry of the
    new entry, is answered with that response and the remaining handlers
    are not run. *)
Theorem answered_request_is_served_next_time (r1 r2 : Readings)
    (c : Request) (next next2 : BodyState -> State -> list WriterCall * State)
    (st : State) (requestBody : list byte) (request : GeneralOpenAIRequest)
    (response : TextResponse) :
  isCacheableRequest c = true ->
  RequestBody c = Some requestBody ->
  json_Unmarshal_request requestBody = Some request ->
  GenerateCacheKey request <> "" ->
  let missed :=
    GetLLMCache (atLookup r1) (atTouch r1) (GenerateCacheKey request) st in
  let w := foldl call newCaptureWriter (next (Restored requestBody) missed.2).1 in
  let st2 := (next (Restored requestBody) missed.2).2 in
  missed.1 = None ->
  statusCode w = 200 ->
  json_Unmarshal (body w) = Some response ->
  shouldCache response st2 = true ->
  LLMCacheEnabled (vars st2) = true ->
  in_int64 (atInsert r1 + LLMCacheTTL (vars st2)) ->
  atLookup r2 <= atInsert r1 + LLMCacheTTL (vars st2) ->
  let first := LLMCacheMiddleware r1 c next st in
  first.1 = Captured w
  /\ (LLMCacheMiddleware r2 c next2 first.2).1 = Served response.
Proof.
  intros Hc Hb Hd Hk missed w st2 Hmiss Hstatus Hbody Hyes Hon Hsum Ht first.
  destruct (handleCacheResponse_then_hit (atInsert r1) (atEvict r1)
              (evictOrder r1) (GenerateCacheKey request) request (body w)
              response st2 (atLookup r2) (atTouch r2) Hon Hbody Hyes Hsum Ht)
    as (Hfound & Hitem & Hp).
  set (st3 := handleCacheResponse _ _ _ _ _ _ st2) in *.
  assert (Hfirst : first = (Captured w, st3)).
  { unfold first, LLMCacheMiddleware. rewrite Hc, Hb, Hd. simpl.
    apply String.eqb_neq in Hk. rewrite Hk.
    fold missed. destruct missed as [[q |] st1] eqn:Hm; [done |]. simpl.
    simpl in w, st2. fold w. rewrite Hstatus. simpl. done. }
  rewrite Hfirst. simpl. split; [done |].
  unfold LLMCacheMiddleware. rewrite Hc, Hb, Hd. simpl.
  apply String.eqb_neq in Hk. rewrite Hk, Hfound. simpl.
  rewrite item_at_update_stats, item_at_update_item.
  rewrite decide_True by done. by rewrite Hitem.
Qed.

(** X20.  Only a captured status of 200 leads to an insertion: when a
    cacheable request misses and the remaining handlers never call
    [WriteHeader] with 200 (they call it with other codes, or not at all,
    in which case the captured status stays 0), the state the middleware
    leaves is the state the handlers left, whatever they wrote. *)
Theorem only_status_200_is_stored (r : Readings) (c : Request)
    (next : BodyState -> State -> list WriterCall * State) (st : State)
    (requestBody : list byte) (request : GeneralOpenAIRequest) :
  isCacheableRequest c = true ->
  RequestBody c = Some requestBody ->
  json_Unmarshal_request requestBody = Some request ->
  GenerateCacheKey request <> "" ->
  let missed :=
    GetLLMCache (atLookup r) (atTouch r) (GenerateCacheKey request) st in
  missed.1 = None ->
  DoWriteHeader 200 ∉ (next (Restored requestBody) missed.2).1 ->
  LLMCacheMiddleware r c next st
  = (Captured
       (foldl call newCaptureWriter (next (Restored requestBody) missed.2).1),
     (next (Restored requestBody) missed.2).2).
Proof.
  intros Hc Hb Hd Hk missed Hmiss Hnever.
  unfold LLMCacheMiddleware. rewrite Hc, Hb, Hd. simpl.
  apply String.eqb_neq in Hk. rewrite Hk.
  fold missed. destruct missed as [[q |] st1] eqn:Hm; [done |]. simpl in *.
  assert (Hstatus : statusCode
                      (foldl call newCaptureWriter
                         (next (Restored requestBody) st1).1)
                    <> 200).
  { destruct (statusCode_from newCaptureWriter
                (next (Restored requestBody) st1).1) as [-> | Hin].
    - simpl. lia.
    - intros Heq. rewrite Heq in Hin. done. }
  apply Z.eqb_neq in Hstatus. by rewrite Hstatus.
Qed.

(** X21.  With the cache disabled, before and after the remaining
    handlers run, the middleware never answers from the cache and leaves
    the state exactly as the handlers left it; the handlers run on the
    body [bodyForNext] gives. *)
Theorem disabled_cache_makes_middleware_transparent (r : Readings)
    (c : Request) (next : BodyState -> State -> list WriterCall * State)
    (st : State) :
  LLMCacheEnabled (vars st) = false ->
  LLMCacheEnabled (vars (next (bodyForNext c) st).2) = false ->
  (LLMCacheMiddleware r c next st).2 = (next (bodyForNext c) st).2
  /\ forall response,
       (LLMCacheMiddleware r c next st).1 <> Served response.
Proof.
  intros Hoff. unfold LLMCacheMiddleware, bodyForNext.
  destruct (isCacheableRequest c); [simpl | done]. intros Hoff2.
  destruct (RequestBody c) as [b |]; [| done].
  destruct (json_Unmarshal_request b) as [request |]; [| done].
  destruct (String.eqb _ _); [done |].
  rewrite GetLLMCache_disabled by done.
  destruct (_ =? 200); [| done]. simpl. split; [| done].
  unfold handleCacheResponse.
  destruct (json_Unmarshal _) as [response |]; [| done].
  destruct (shouldCache response _); [| done]. simpl.
  by apply SetLLMCache_disabled.
Qed.

End MiddlewareMore.

Section MiddlewareMoreChecks.
Import Sample SampleWeb.
#[local] Existing Instance text_model.
#[local] Existing Instance text_library.
#[local] Existing Instance text_decoder.

Lemma cacheable_response_is_stored_witness :
  let responseBody := list_byte_of_string "The capital of France is Paris." in
  let response :=
    @Build_TextResponse text_model
      [@Build_TextResponseChoice text_model "The capital of France is Paris."]
      31 in
  let st' := handleCacheResponse 100 100 [] "k" question responseBody started in
  let found := GetLLMCache 200 200 "k" st' in
  exists p,
    found.1 = Some p
    /\ Response (item_at found.2 p) = response
    /\ itemUsage (item_at found.2 p) = respUsage response
    /\ HitCount (item_at found.2 p) = 1.
Proof.
  intros responseBody response.
  apply (cacheable_response_is_stored started 100 100 [] "k" question
           responseBody response 200 200).
  - reflexivity.
  - vm_compute. reflexivity.
  - vm_compute. reflexivity.
  - unfold in_int64. simpl. lia.
  - vm_compute. discriminate.
Defined.

(** A GET of the chat path; a POST whose body cannot be read; and a
    POST to a decoder that accepts no body. *)
Lemma uncacheable_request_passes_through_witness :
  let get :=
    {| Method := "GET"; URLPath := "/v1/chat/completions";
       ContentType := "application/json"; RequestBody := Some [] |} in
  let broken :=
    {| Method := "POST"; URLPath := "/v1/chat/completions";
       ContentType := "application/json"; RequestBody := None |} in
  LLMCacheMiddleware (readings 100 started) get upstream started
  = (Passed (upstream Unread started).1, (upstream Unread started).2)
  /\ LLMCacheMiddleware (readings 100 started) broken upstream started
     = (Passed (upstream Consumed started).1, (upstream Consumed started).2)
  /\ @LLMCacheMiddleware text_model text_library
       {| json_Unmarshal_request := fun _ => None |}
       (readings 100 started) chat upstream started
     = (Passed
          (upstream
             (Restored (list_byte_of_string "What is the capital of France?"))
             started).1,
        (upstream
           (Restored (list_byte_of_string "What is the capital of France?"))
           started).2).
Proof.
  intros get broken. split; [| split].
  - apply (proj1 (uncacheable_request_passes_through (readings 100 started)
                    get upstream started)).
    left. discriminate.
  - apply (proj1 (proj2 (uncacheable_request_passes_through
                           (readings 100 started) broken upstream started)));
      [vm_compute |]; reflexivity.
  - apply (proj2 (proj2 (@uncacheable_request_passes_through text_model
                           text_library
                           {| json_Unmarshal_request := fun _ => None |}
                           (readings 100 started) chat upstream started))
             (list_byte_of_string "What is the capital of France?")).
    + vm_compute. reflexivity.
    + reflexivity.
    + left. reflexivity.
Defined.

(** The sample request arriving at second 200 when its answer was stored
    at second 100. *)
Lemma cached_request_is_served_without_upstream_witness :
  let st := insert_at 100 (GenerateCacheKey question) started in
  let r := readings 200 st in
  LLMCacheMiddleware r chat upstream st
  = (Served (Response (item_at st 0%nat)),
     (GetLLMCache (atLookup r) (atTouch r) (GenerateCacheKey question) st).2)
  /\ LLMCacheMiddleware r chat upstream_bare st
     = LLMCacheMiddleware r chat upstream st.
Proof.
  intros st r.
  apply (cached_request_is_served_without_upstream r chat upstream
           upstream_bare st
           (list_byte_of_string "What is the capital of France?")
           question 0%nat).
  - vm_compute. reflexivity.
  - reflexivity.
  - vm_compute. reflexivity.
  - vm_compute. discriminate.
  - reflexivity.
  - vm_compute. reflexivity.
  - vm_compute. discriminate.
Defined.

(** The sample request at second 100 on the empty store, answered by the
    remaining handlers, and again at second 200. *)
Lemma answered_request_is_served_next_time_witness :
  let response :=
    @Build_TextResponse text_model
      [@Build_TextResponseChoice text_model "The capital of France is Paris."]
      31 in
  let first :=
    LLMCacheMiddleware (readings 100 started) chat upstream started in
  first.1
  = Captured
      (foldl call newCaptureWriter
         (upstream
            (Restored (list_byte_of_string "What is the capital of France?"))
            started).1)
  /\ (LLMCacheMiddleware (readings 200 started) chat upstream_bare first.2).1
     = Served response.
Proof.
  intros response.
  apply (answered_request_is_served_next_time (readings 100 started)
           (readings 200 started) chat upstream upstream_bare started
           (list_byte_of_string "What is the capital of France?")
           question response).
  - vm_compute. reflexivity.
  - reflexivity.
  - vm_compute. reflexivity.
  - vm_compute. discriminate.
  - vm_compute. reflexivity.
  - vm_compute. reflexivity.
  - vm_compute. reflexivity.
  - vm_compute. reflexivity.
  - vm_compute. reflexivity.
  - vm_compute. split; [discriminate | reflexivity].
  - vm_compute. discriminate.
Defined.

(** The remaining handlers writing the answer without a call of
    [WriteHeader]. *)
Lemma only_status_200_is_stored_witness :
  let missed :=
    GetLLMCache 100 100 (GenerateCacheKey question) started in
  LLMCacheMiddleware (readings 100 started) chat upstream_bare started
  = (Captured
       (foldl call newCaptureWriter
          (upstream_bare
             (Restored (list_byte_of_string "What is the capital of France?"))
             missed.2).1),
     (upstream_bare
        (Restored (list_byte_of_string "What is the capital of France?"))
        missed.2).2).
Proof.
  apply (only_status_200_is_stored (readings 100 started) chat upstream_bare
           started (list_byte_of_string "What is the capital of France?")
           question).
  - vm_compute. reflexivity.
  - reflexivity.
  - vm_compute. reflexivity.
  - vm_compute. discriminate.
  - vm_compute. reflexivity.
  - unfold upstream_bare. simpl.
    intros [Heq | Hin]%elem_of_cons; [discriminate | by apply elem_of_nil in Hin].
Defined.

Lemma disabled_cache_makes_middleware_transparent_witness :
  let st := configured false 10000 in
  (LLMCacheMiddleware (readings 100 st) chat upstream st).2
  = (upstream (bodyForNext chat) st).2
  /\ forall response,
       (LLMCacheMiddleware (readings 100 st) chat upstream st).1
       <> Served response.
Proof.
  intros st.
  apply (disabled_cache_makes_middleware_transparent (readings 100 st) chat
           upstream st); reflexivity.
Defined.

End MiddlewareMoreChecks.

(** * Two edges of the store *)

Section Edges.
Context `{RM : RelayModel}.

Implicit Types (st : State) (key : string) (p : loc).
Implicit Types (order : list (string * loc)).

(** X22.  [evictLRU] uses the empty string for "no key found": when the
    entry that is strictly the least recently accessed is stored under
    the empty key, [evictLRU] removes nothing and counts nothing, however
    long ago that entry was accessed. *)
Theorem entry_under_empty_key_is_never_evicted (st : State)
    (order : list (string * loc)) (now : Z) (p : loc) :
  visits order st ->
  llmCache st !! "" = Some p ->
  map_Forall (fun k q => (k, q) <> ("", p) ->
                LastAccessed (item_at st p) < LastAccessed (item_at st q))
             (llmCache st) ->
  evictLRU order now st = st.
Proof.
  intros Hvisit Hp Hleast.
  assert (Hothers : forall other, other ∈ order -> other <> ("", p) ->
            LastAccessed (item_at st p) < LastAccessed (item_at st other.2)).
  { intros [k q] Hin Hne. simpl.
    by apply (Hleast k q (visits_lookup st order (k, q) Hvisit Hin)). }
  destruct (Z.lt_ge_cases (LastAccessed (item_at st p)) now) as [Hlt | Hge].
  - unfold evictLRU.
    rewrite (scanOldest_finds st order ("", now) ("", p));
      [done | by apply (lookup_visits st) | done | done].
  - apply evictLRU_nothing_older. intros other Hin.
    destruct (decide (other = ("", p))) as [-> | Hne]; [done |].
    pose proof (Hothers other Hin Hne). lia.
Qed.

(** X23.  Switching the cache off through [LLMCacheEnabled] hides the
    entries without removing them: while the variable is false a lookup
    of a bound key returns not-found and changes nothing, and once the
    variable is true again the same lookup returns the entry, provided it
    has not expired. *)
Theorem switched_off_store_keeps_its_entries (st : State) (off on : Vars)
    (key : string) (p : loc) (t t' : Z) :
  LLMCacheEnabled off = false ->
  LLMCacheEnabled on = true ->
  llmCache st !! key = Some p ->
  t <= ExpiresAt (item_at st p) ->
  let hidden := GetLLMCache t t' key (set_vars off st) in
  hidden = (None, set_vars off st)
  /\ (GetLLMCache t t' key (set_vars on hidden.2)).1 = Some p.
Proof.
  intros Hoff Hon Hp Ht hidden.
  assert (Hhidden : hidden = (None, set_vars off st)).
  { by apply GetLLMCache_disabled. }
  split; [done |]. rewrite Hhidden. simpl.
  by rewrite (GetLLMCache_hit t t' key (set_vars on (set_vars off st)) p).
Qed.

End Edges.

Section EdgesChecks.
Import Sample.
#[local] Existing Instance text_model.

Lemma entry_under_empty_key_is_never_evicted_witness :
  let st := insert_at 200 "k" (insert_at 100 "" (configured true 2)) in
  evictLRU (map_to_list (llmCache st)) 5000 st = st.
Proof.
  intros st.
  apply (entry_under_empty_key_is_never_evicted st
           (map_to_list (llmCache st)) 5000 0%nat).
  - apply visits_map_to_list.
  - vm_compute. reflexivity.
  - by_computation.
Defined.

Lemma switched_off_store_keeps_its_entries_witness :
  let st := insert_at 100 "k" started in
  let hidden := GetLLMCache 200 200 "k" (set_vars (vars (configured false 10000)) st) in
  hidden = (None, set_vars (vars (configured false 10000)) st)
  /\ (GetLLMCache 200 200 "k" (set_vars (vars started) hidden.2)).1
     = Some 0%nat.
Proof.
  intros st.
  apply (switched_off_store_keeps_its_entries st
           (vars (configured false 10000)) (vars started) "k" 0%nat 200 200).
  - reflexivity.
  - reflexivity.
  - vm_compute. reflexivity.
  - vm_compute. discriminate.
Defined.

End EdgesChecks.
